(** * ToDo-Master: the backend's CORS allow-list and routes, and the frontend's addTask

    A shallow embedding of [backend/server.js] (both copies found in the
    source) and of [frontend/src/App.jsx], with the properties stated for
    them.  JavaScript strings are sequences of UTF-16 code units; arrays are
    lists; the one array the server mutates in place
    ([CONFIG_ALLOWED_ORIGINS]) is threaded through explicitly. *)

From Stdlib Require Import Ascii String QArith.
From stdpp Require Import base numbers list strings.

Local Open Scope N_scope.
Set Warnings "-clear-no-such-hyp".

(** ** The JavaScript built-ins the program calls *)

Module JS.

(** A string is the list of its UTF-16 code units. *)
Abbreviation code_unit := N (only parsing).
Abbreviation jsstring := (list N) (only parsing).

(** An ASCII literal of the source, as a JavaScript string. *)
Definition lit (s : string) : jsstring :=
  N_of_ascii <$> list_ascii_of_string s.

(** [WhiteSpace] and [LineTerminator] of ECMAScript: what [trim] removes. *)
Definition is_white_space (c : code_unit) : bool :=
  bool_decide (c ∈ [0x9; 0xA; 0xB; 0xC; 0xD; 0x20; 0xA0; 0x1680; 0x2028;
                    0x2029; 0x202F; 0x205F; 0x3000; 0xFEFF])
  || ((0x2000 <=? c) && (c <=? 0x200A)).

Fixpoint trimStart (s : jsstring) : jsstring :=
  match s with
  | [] => []
  | c :: s' => if is_white_space c then trimStart s' else s
  end.

Definition trimEnd (s : jsstring) : jsstring :=
  reverse (trimStart (reverse s)).

(** [s.trim()] *)
Definition trim (s : jsstring) : jsstring := trimEnd (trimStart s).

(** [Boolean(s)] on a string: only the empty string is falsy. *)
Definition Boolean (s : jsstring) : bool :=
  match s with
  | [] => false
  | _ :: _ => true
  end.

(** The code unit of ['/'] and of [',']. *)
Definition slash : code_unit := 0x2F.
Definition comma : code_unit := 0x2C.

(** [o.replace(/\/$/, '')]: the pattern has no [m] flag, so [$] is the end of
    the input and the only possible match is a ['/'] in last position. *)
Fixpoint replace_trailing_slash (o : jsstring) : jsstring :=
  match o with
  | [] => []
  | c :: rest =>
      match rest with
      | [] => if c =? slash then [] else [c]
      | _ :: _ => c :: replace_trailing_slash rest
      end
  end.

(** [s.split(sep)] for a separator of one code unit: never an empty array. *)
Fixpoint split (sep : code_unit) (s : jsstring) : list jsstring :=
  match s with
  | [] => [[]]
  | c :: s' =>
      if c =? sep then [] :: split sep s'
      else match split sep s' with
           | [] => [[c]]
           | piece :: pieces => (c :: piece) :: pieces
           end
  end.

(** A [Set] of strings, as the list of its elements in insertion order.
    [add] leaves the set alone when the element is already in it. *)
Definition Set_add (s : list jsstring) (x : jsstring) : list jsstring :=
  if decide (x ∈ s) then s else s ++ [x].

(** [[...new Set(xs)]]: elements are added in the order of [xs]. *)
Definition new_Set (xs : list jsstring) : list jsstring :=
  foldl Set_add [] xs.

(** [xs.includes(x)] on an array of strings. *)
Definition includes (xs : list jsstring) (x : jsstring) : bool :=
  bool_decide (x ∈ xs).

(** [v == s] where [v] is a string or [undefined] and [s] a string. *)
Definition loose_eq (v : option jsstring) (s : jsstring) : bool :=
  match v with
  | None => false
  | Some x => bool_decide (x = s)
  end.

(** [s.endsWith('/')], used to state the properties. *)
Definition ends_with_slash (s : jsstring) : bool :=
  bool_decide (last s = Some slash).

(** [!!v] where [v] is a string or [undefined]. *)
Definition to_boolean (v : option jsstring) : bool :=
  match v with
  | None => false
  | Some s => Boolean s
  end.

(** A Number.  Finite doubles are rationals; nothing here computes with them. *)
Inductive number :=
| NaN
| Infinity (negative : bool)
| Finite (q : Q).

(** [Boolean(n)]: [NaN] and zero are falsy. *)
Definition number_truthy (n : number) : bool :=
  match n with
  | NaN => false
  | Infinity _ => true
  | Finite q => negb (Qeq_bool q 0)
  end.

(** [a || b] on numbers. *)
Definition or_else (a b : number) : number :=
  if number_truthy a then a else b.

Set Warnings "-register-all".

(** The values the handlers build: object literals keep their properties in
    source order, and a property may hold [undefined]. *)
Inductive value :=
| VUndefined
| VBoolean (b : bool)
| VNumber (n : number)
| VString (s : jsstring)
| VArray (items : list value)
| VObject (properties : list (string * value)).

(** What [JSON.stringify] writes, as a tree. *)
Inductive json :=
| JNull
| JBoolean (b : bool)
| JNumber (q : Q)
| JString (s : jsstring)
| JArray (items : list json)
| JObject (members : list (string * json)).

(** [JSON.stringify(v)]: [None] is [undefined] (nothing is written).  A
    property holding [undefined] is left out of its object; [undefined] in
    an array, and a number that is not finite, are written [null]. *)
Fixpoint stringify (v : value) : option json :=
  match v with
  | VUndefined => None
  | VBoolean b => Some (JBoolean b)
  | VNumber (Finite q) => Some (JNumber q)
  | VNumber _ => Some JNull
  | VString s => Some (JString s)
  | VArray items =>
      Some (JArray (List.map (fun x => default JNull (stringify x)) items))
  | VObject properties =>
      Some (JObject
        ((fix members (ps : list (string * value)) : list (string * json) :=
            match ps with
            | [] => []
            | (k, x) :: ps' =>
                match stringify x with
                | Some j => (k, j) :: members ps'
                | None => members ps'
                end
            end) properties))
  end.

(** The member [k] of a JSON object, if the tree is an object that has it. *)
Definition member (k : string) (j : json) : option json :=
  match j with
  | JObject members => snd <$> List.find (fun kv => String.eqb (fst kv) k) members
  | _ => None
  end.

(** [j.k1.k2...] *)
Fixpoint at_path (ks : list string) (j : json) : option json :=
  match ks with
  | [] => Some j
  | k :: ks' =>
      match member k j with
      | Some j' => at_path ks' j'
      | None => None
      end
  end.

(** [k in v] for an object [v]: the property exists, whatever it holds. *)
Definition has_property (k : string) (v : value) : bool :=
  match v with
  | VObject properties => existsb (fun kv => String.eqb (fst kv) k) properties
  | _ => false
  end.

(** [pieces.join(sep)] for a separator of one code unit; the program does
    not call it, it says what [split] undoes. *)
Fixpoint join (sep : code_unit) (pieces : list jsstring) : jsstring :=
  match pieces with
  | [] => []
  | piece :: rest =>
      match rest with
      | [] => piece
      | _ :: _ => piece ++ sep :: join sep rest
      end
  end.

End JS.

Import JS.

(** ** What the program uses of Express, of the cors package and of Node

    None of them is part of the repository.  This is the part of their
    behaviour the server's wiring relies on: a stack of middleware run in
    registration order, each of which answers, hands over to the next, or
    hands an error to the error handler; what [res.send] puts on the wire;
    and the port [listen] accepts. *)

Module Express.

Inductive http_method := GET | HEAD | POST | PUT | DELETE | PATCH | OPTIONS.

(** A request as the stack sees it.  Two fields stand for what the library
    finds out about the request: [json_body_refused] says that
    [express.json()] hands an error over for its body (the body does not
    parse, or it is refused for its size, its encoding, or because the
    client went away); [cache_validators_match] says that the request is a
    conditional one ([If-None-Match], [If-Modified-Since]) whose validators
    match the response being sent, and is [false] for a request without
    such headers. *)
Record request := {
  method : http_method;
  path : jsstring;
  origin : option jsstring;
  json_body_refused : bool;
  cache_validators_match : bool
}.

Inductive body :=
| NoBody
| Text (s : jsstring)
| Json (j : option json).

(** A response, with the lines its handler wrote with [console.log]. *)
Record response := {
  status : N;
  sent : body;
  logged : list jsstring
}.

Inductive error :=
| Error (message : jsstring)
| JsonBodyError.

Inductive step :=
| Next
| NextError (e : error)
| Respond (r : response).

(** Where a request ends: a response, the error handler, or the end of the
    stack (Express's own final handler). *)
Inductive outcome :=
| Response (r : response)
| ErrorHandler (e : error)
| FinalHandler.

Definition middleware := request -> step.

Fixpoint handle (stack : list middleware) (req : request) : outcome :=
  match stack with
  | [] => FinalHandler
  | m :: stack' =>
      match m req with
      | Next => handle stack' req
      | NextError e => ErrorHandler e
      | Respond r => Response r
      end
  end.

(** What a handler leaves to [res.send(text)] and to [res.json(v)]: the
    status it set (200 unless [res.status(n)] was called) and the body it
    gave.  What reaches the client is [on_the_wire] of it. *)
Definition res_send (text : jsstring) : response :=
  {| status := 200; sent := Text text; logged := [] |}.

Definition res_json (code : N) (v : value) : response :=
  {| status := code; sent := Json (stringify v); logged := [] |}.

(** [req.fresh] when the response has status [code]: only [GET] and [HEAD]
    requests, and only responses with a status from 200 to 299 or 304, can
    be fresh. *)
Definition is_fresh (req : request) (code : N) : bool :=
  match method req with
  | GET | HEAD =>
      (((200 <=? code) && (code <? 300)) || (code =? 304))
      && cache_validators_match req
  | _ => false
  end.

(** What [res.send] (in which [res.json] ends) puts on the wire: a fresh
    request is answered 304; no body goes with status 204 or 304, nor to a
    [HEAD] request. *)
Definition on_the_wire (req : request) (r : response) : response :=
  let code := if is_fresh req (status r) then 304 else status r in
  {| status := code;
     sent := if (code =? 204) || (code =? 304) then NoBody
             else match method req with
                  | HEAD => NoBody
                  | _ => sent r
                  end;
     logged := logged r |}.

(** [express.json()]: a body it refuses goes to the error handler. *)
Definition express_json : middleware := fun req =>
  if json_body_refused req then NextError JsonBodyError else Next.

(** The verdict the [origin] option of cors reports through its callback:
    [callback(null, true)] or [callback(new Error(message))]. *)
Inductive verdict :=
| Allowed
| Blocked (message : jsstring).

(** [cors({ origin, credentials: true })]: the [origin] function decides; an
    allowed preflight request ([OPTIONS]) is answered by cors itself, any
    other allowed request goes on. *)
Definition cors (origin_option : option jsstring -> verdict) : middleware :=
  fun req =>
    match origin_option (origin req) with
    | Blocked message => NextError (Error message)
    | Allowed =>
        match method req with
        | OPTIONS => Respond {| status := 204; sent := NoBody; logged := [] |}
        | _ => Next
        end
    end.

(** The router's test of a request path against the path of a route.  It is
    the library's, and its versions do not agree (on [//] against the route
    [/], for one), so the stack takes it as given; a property that depends
    on it says what it assumes of it. *)
Class Router := path_matches : jsstring -> jsstring -> bool.

Definition to_lower (c : code_unit) : code_unit :=
  if (0x41 <=? c) && (c <=? 0x5A) then c + 0x20 else c.

(** The test of Express 4 with its defaults: case is ignored, and one
    trailing slash is optional. *)
Definition express4_path_matches (route p : jsstring) : bool :=
  bool_decide (replace_trailing_slash (to_lower <$> p)
               = replace_trailing_slash (to_lower <$> route)).

#[export] Instance express4 : Router := express4_path_matches.

(** A route registered with [app.get] takes the [GET] and [HEAD] requests
    whose path matches. *)
Definition route_applies `{Router} (route : jsstring) (req : request) : bool :=
  match method req with
  | GET | HEAD => path_matches route (path req)
  | _ => false
  end.

(** [app.get(route, handler)] *)
Definition app_get `{Router} (route : jsstring) (handler : request -> response)
  : middleware :=
  fun req =>
    if route_applies route req then Respond (on_the_wire req (handler req))
    else Next.

(** [app.use(handler)] for a handler that always answers. *)
Definition app_use (handler : request -> response) : middleware :=
  fun req => Respond (on_the_wire req (handler req)).

(** [server.listen(port)] throws at once unless the port is an integer from
    0 to 65535.  What fails later (a port in use) is no part of loading the
    module. *)
Definition legal_port (port : number) : bool :=
  match port with
  | Finite q =>
      (Qden (Qred q) =? 1)%positive
      && (0 <=? Qnum (Qred q))%Z && (Qnum (Qred q) <=? 65535)%Z
  | _ => false
  end.

End Express.

Import Express.

(** ** backend/server.js, first copy (lines 1-134) *)

Module Server.

(** What the module reads of [process.env] when it is loaded.  [PORT] stands
    for [Number(process.env.PORT)], the conversion being JavaScript's. *)
Record process_env := {
  NODE_ENV : option jsstring;
  PORT : number;
  ALLOWED_ORIGINS : option jsstring
}.

(** Lines 22-24: what [.filter(Boolean).map((s) => s.trim())] makes of the
    pieces of [process.env.ALLOWED_ORIGINS.split(',')]. *)
Definition filter_and_trim (pieces : list jsstring) : list jsstring :=
  trim <$> List.filter Boolean pieces.

Definition localhost_5173 : jsstring := lit "http://localhost:5173".
Definition development : jsstring := lit "development".
Definition production : jsstring := lit "production".

(** Lines 30-40.  The function reads the module-level [CONFIG_NODE_ENV] and
    array [CONFIG_ALLOWED_ORIGINS]; [push] changes that array in place, so
    the array as the call leaves it is returned beside the result. *)
Definition configureAllowedOrigins
    (CONFIG_NODE_ENV : option jsstring) (CONFIG_ALLOWED_ORIGINS : list jsstring)
  : list jsstring * list jsstring :=
  let CONFIG_ALLOWED_ORIGINS :=
    if loose_eq CONFIG_NODE_ENV development
    then CONFIG_ALLOWED_ORIGINS ++ [localhost_5173]
    else CONFIG_ALLOWED_ORIGINS in
  (replace_trailing_slash <$> List.filter Boolean (new_Set CONFIG_ALLOWED_ORIGINS),
   CONFIG_ALLOWED_ORIGINS).

(** The allow-list built from the pieces [B] of the configured value in
    environment [env]: lines 22-24 followed by the call of line 43. *)
Definition build (B : list jsstring) (env : option jsstring) : list jsstring :=
  (configureAllowedOrigins env (filter_and_trim B)).1.

(** The entries the result is made from, before the trailing slash goes:
    the deduplicated, non-empty strings of line 39. *)
Definition working_set (B : list jsstring) (env : option jsstring) : list jsstring :=
  List.filter Boolean
    (new_Set (if loose_eq env development
              then filter_and_trim B ++ [localhost_5173]
              else filter_and_trim B)).

(** The array [CONFIG_ALLOWED_ORIGINS] after [n] calls of the function. *)
Definition after_calls (n : nat) (env : option jsstring) (origins : list jsstring)
  : list jsstring :=
  Nat.iter n (fun a => (configureAllowedOrigins env a).2) origins.

(** The module's top-level bindings once it is loaded. *)
Record globals := {
  CONFIG_NODE_ENV : option jsstring;
  CONFIG_PORT : number;
  CONFIG_ALLOWED_ORIGINS : list jsstring;
  allowedOrigins : list jsstring
}.

(** Lines 17-43: the bindings the module makes before it builds the
    application.  [None]: [ALLOWED_ORIGINS] is not set, and [.split] of
    [undefined] throws at line 22.  The module goes on to lines 47-128, see
    [start]. *)
Definition load (env : process_env) : option globals :=
  match ALLOWED_ORIGINS env with
  | None => None
  | Some configured =>
      let '(allowed, origins) :=
        configureAllowedOrigins (NODE_ENV env)
          (filter_and_trim (split comma configured)) in
      Some {| CONFIG_NODE_ENV := NODE_ENV env;
              CONFIG_PORT := PORT env;
              CONFIG_ALLOWED_ORIGINS := origins;
              allowedOrigins := allowed |}
  end.

(** Lines 57-64: the [origin] function given to cors. *)
Definition cors_origin (allowedOrigins : list jsstring) (origin : option jsstring)
  : verdict :=
  match origin with
  | None => Allowed
  | Some o =>
      if negb (Boolean o) then Allowed
      else if includes allowedOrigins o then Allowed
      else Blocked (lit "CORS blocked for origin: " ++ o)
  end.

(** Lines 72-75. *)
Definition handleRoot (req : request) : response :=
  res_send (lit "welcome to the default page").

(** What [handleHealthCheck] reads of the process when it runs:
    [new Date().toISOString()], [process.env.GOOGLE_API_KEY] and
    [process.uptime()]. *)
Record process_now := {
  toISOString : jsstring;
  GOOGLE_API_KEY : option jsstring;
  uptime : number
}.

(** Lines 85-101: the object literal. *)
Definition healthStatus (g : globals) (now : process_now) : value :=
  let timestamp := toISOString now in
  let hasApiKey := to_boolean (GOOGLE_API_KEY now) in
  VObject [
    ("status", VString (lit "healthy"));
    ("timestamp", VString timestamp);
    ("api", VObject [
       ("running", VBoolean true);
       ("port", VNumber (CONFIG_PORT g));
       ("env", from_option VString VUndefined (CONFIG_NODE_ENV g));
       ("allowedOrigins", VArray (VString <$> allowedOrigins g))
     ]);
    ("gemini", VObject [
       ("configured", VBoolean hasApiKey);
       ("model", VString (if hasApiKey then lit "gemini-2.5-flash" else lit "unavailable"))
     ]);
    ("uptime", VNumber (uptime now))
  ]%string.

(** Lines 78-110. *)
Definition handleHealthCheck (g : globals) (now : process_now) (req : request)
  : response :=
  let timestamp := toISOString now in
  let hasApiKey := to_boolean (GOOGLE_API_KEY now) in
  let line :=
    lit "[" ++ timestamp ++ lit "] API Status: Running, Gemini: "
    ++ (if hasApiKey then lit "Configured" else lit "Not configured") in
  {| status := 200;
     sent := Json (stringify (healthStatus g now));
     logged := [line] |}.

(** Lines 119-123. *)
Definition notFound (req : request) : response :=
  res_json 404 (VObject [("error", VString (lit "Not found"))]%string).

(** Lines 47-123: the stack, in registration order. *)
Definition app `{Router} (g : globals) (now : process_now) : list middleware :=
  [ express_json;
    cors (cors_origin (allowedOrigins g));
    app_get (lit "/") handleRoot;
    app_get (lit "/health") (handleHealthCheck g now);
    app_use notFound ].

(** The answer of the server to one request. *)
Definition serve `{Router} (g : globals) (now : process_now) (req : request)
  : outcome :=
  handle (app g now) req.

(** Lines 17-128: the module as a whole.  After the bindings of [load] it
    calls [app.listen(CONFIG_PORT)], which throws at once on a port that is
    not legal.  [None]: the module throws while it loads. *)
Definition start (env : process_env) : option globals :=
  match load env with
  | None => None
  | Some g => if legal_port (CONFIG_PORT g) then Some g else None
  end.

(** A deployment used in the examples below: [NODE_ENV] is not set. *)
Definition example_env : process_env :=
  {| NODE_ENV := None;
     PORT := Finite 5000;
     ALLOWED_ORIGINS := Some (lit "http://localhost:3000") |}.

Definition example_globals : globals :=
  {| CONFIG_NODE_ENV := None;
     CONFIG_PORT := Finite 5000;
     CONFIG_ALLOWED_ORIGINS := [lit "http://localhost:3000"];
     allowedOrigins := [lit "http://localhost:3000"] |}.

Definition example_now : process_now :=
  {| toISOString := lit "2025-01-01T00:00:00.000Z";
     GOOGLE_API_KEY := None;
     uptime := Finite 12 |}.

Definition get (p : jsstring) (origin : option jsstring) : request :=
  {| method := GET; path := p; origin := origin;
     json_body_refused := false; cache_validators_match := false |}.

End Server.

(** ** backend/server.js, second copy (lines 135-246) *)

Module Server2.

(** Lines 152-154. *)
Definition filter_and_trim (pieces : list jsstring) : list jsstring :=
  trim <$> List.filter Boolean pieces.

(** Lines 158-169. *)
Definition configureAllowedOrigins
    (CONFIG_NODE_ENV : option jsstring) (CONFIG_ALLOWED_ORIGINS : list jsstring)
  : list jsstring * list jsstring :=
  let CONFIG_ALLOWED_ORIGINS :=
    if loose_eq CONFIG_NODE_ENV (lit "development")
    then CONFIG_ALLOWED_ORIGINS ++ [lit "http://localhost:5173"]
    else CONFIG_ALLOWED_ORIGINS in
  (replace_trailing_slash <$> List.filter Boolean (new_Set CONFIG_ALLOWED_ORIGINS),
   CONFIG_ALLOWED_ORIGINS).

(** Line 149: [Number(process.env.PORT) || 3000]. *)
Definition CONFIG_PORT (env : Server.process_env) : number :=
  or_else (Server.PORT env) (Finite 3000).

(** Lines 146-172, with the bindings of the first copy's [globals]. *)
Definition load (env : Server.process_env) : option Server.globals :=
  match Server.ALLOWED_ORIGINS env with
  | None => None
  | Some configured =>
      let '(allowed, origins) :=
        configureAllowedOrigins (Server.NODE_ENV env)
          (filter_and_trim (split comma configured)) in
      Some {| Server.CONFIG_NODE_ENV := Server.NODE_ENV env;
              Server.CONFIG_PORT := CONFIG_PORT env;
              Server.CONFIG_ALLOWED_ORIGINS := origins;
              Server.allowedOrigins := allowed |}
  end.

(** Lines 146-242: the second copy as a whole, as [Server.start]. *)
Definition start (env : Server.process_env) : option Server.globals :=
  match load env with
  | None => None
  | Some g => if legal_port (Server.CONFIG_PORT g) then Some g else None
  end.

End Server2.

(** ** frontend/src/App.jsx *)

Module App.

(** A task of the list: [{ id: Date.now(), text: trimmedText }]. *)
Record task := {
  id : Z;
  task_text : jsstring
}.

(** The three [useState] cells of the component. *)
Record state := {
  count : Z;
  text : jsstring;
  tasks : list task
}.

Definition initial : state := {| count := 0; text := []; tasks := [] |}.

(** Lines 31-44.  [now] is the value [Date.now()] returns. *)
Definition addTask (now : Z) (st : state) : state :=
  let trimmedText := trim (text st) in
  if negb (Boolean trimmedText) then st
  else
    {| count := count st;
       text := lit "";
       tasks := tasks st ++ [{| id := now; task_text := trimmedText |}] |}.

(** Line 62: [setCount((c) => c + 1)].  The counter is a double; on the
    integers from [-2^53] to [2^53] the sum is exact below [2^53], and at
    [2^53] it rounds back to [2^53]. *)
Definition increment (st : state) : state :=
  {| count := if (count st <? 2 ^ 53)%Z then (count st + 1)%Z else count st;
     text := text st;
     tasks := tasks st |}.

(** Line 82: [setText(e.target.value)]. *)
Definition setText (value : jsstring) (st : state) : state :=
  {| count := count st; text := value; tasks := tasks st |}.

(** Lines 47-53: [preventDefault] leaves the state alone. *)
Definition onSubmit (now : Z) (st : state) : state := addTask now st.

(** Line 91: [disabled={!text.trim()}] on the submit button. *)
Definition submit_disabled (st : state) : bool :=
  negb (Boolean (trim (text st))).

(** Lines 108-112: the [key] and the content of each rendered [<li>].  The
    two spaces that stand before each comment on the lines of the item are
    JSX text, so they are children of the item beside the task's text. *)
Definition rendered (st : state) : list (Z * jsstring) :=
  (fun t => (id t, lit "  " ++ task_text t ++ lit "  ")) <$> tasks st.

(** What the user can do: click the counter, edit the input, submit the
    form (with the button or the Enter key) at time [now]. *)
Inductive event :=
| Click
| Change (value : jsstring)
| Submit (now : Z).

Definition step (st : state) (ev : event) : state :=
  match ev with
  | Click => increment st
  | Change value => setText value st
  | Submit now => onSubmit now st
  end.

Definition run (evs : list event) (st : state) : state := foldl step st evs.

(** The number of clicks and the times of the submissions in a run. *)
Definition clicks (evs : list event) : nat :=
  length (List.filter (fun ev => match ev with Click => true | _ => false end) evs).

Definition submit_times (evs : list event) : list Z :=
  omap (fun ev => match ev with Submit now => Some now | _ => None end) evs.

End App.

Import Server.

(** * Properties *)

(** ** Lemmas on the built-ins *)

Section Builtins.

Implicit Types (s o w x : jsstring) (l xs acc : list jsstring).

Lemma elem_of_filter_Boolean x l : x ∈ List.filter Boolean l ↔ x ∈ l ∧ x ≠ [].
Proof.
  rewrite !list_elem_of_In, filter_In.
  destruct x; simpl; intuition congruence.
Qed.

Lemma NoDup_filter_Boolean l : NoDup l → NoDup (List.filter Boolean l).
Proof.
  induction 1 as [|x l Hx Hl IH]; simpl; [constructor|].
  destruct (Boolean x); [|done].
  constructor; [|done].
  rewrite elem_of_filter_Boolean. tauto.
Qed.

Lemma elem_of_Set_add acc x y : y ∈ Set_add acc x ↔ y ∈ acc ∨ y = x.
Proof.
  unfold Set_add. case_decide as Hx.
  - split; [auto|]. intros [?| ->]; done.
  - rewrite elem_of_app, list_elem_of_singleton. done.
Qed.

Lemma NoDup_Set_add acc x : NoDup acc → NoDup (Set_add acc x).
Proof.
  intros Hacc. unfold Set_add. case_decide as Hx; [done|].
  apply NoDup_app. split_and!; [done| |apply NoDup_singleton].
  intros y Hy ->%list_elem_of_singleton. done.
Qed.

Lemma Set_add_idemp acc x : Set_add (Set_add acc x) x = Set_add acc x.
Proof.
  unfold Set_add at 1. rewrite decide_True; [done|].
  apply elem_of_Set_add. by right.
Qed.

Lemma elem_of_foldl_Set_add l acc y :
  y ∈ foldl Set_add acc l ↔ y ∈ acc ∨ y ∈ l.
Proof.
  revert acc. induction l as [|x l IH]; intros acc; simpl.
  - rewrite elem_of_nil. tauto.
  - rewrite IH, elem_of_Set_add, elem_of_cons. tauto.
Qed.

Lemma NoDup_foldl_Set_add l acc : NoDup acc → NoDup (foldl Set_add acc l).
Proof.
  revert acc. induction l as [|x l IH]; intros acc Hacc; simpl; [done|].
  by apply IH, NoDup_Set_add.
Qed.

(** A [Set] holds what it was given, once. *)
Lemma elem_of_new_Set l y : y ∈ new_Set l ↔ y ∈ l.
Proof.
  unfold new_Set. rewrite elem_of_foldl_Set_add, elem_of_nil. tauto.
Qed.

Lemma NoDup_new_Set l : NoDup (new_Set l).
Proof. apply NoDup_foldl_Set_add. constructor. Qed.

(** Pushing an element that was just pushed changes no [Set] built from the
    array. *)
Lemma new_Set_snoc_replicate l x n :
  new_Set (l ++ replicate (S n) x) = new_Set (l ++ [x]).
Proof.
  unfold new_Set. rewrite !foldl_app. simpl.
  generalize (foldl Set_add [] l). intros acc.
  induction n as [|n IH]; simpl in *; [done|].
  by rewrite Set_add_idemp.
Qed.

(** Filtering commutes with building the [Set]. *)
Lemma filter_Set_add acc x :
  List.filter Boolean (Set_add acc x)
  = if Boolean x then Set_add (List.filter Boolean acc) x
    else List.filter Boolean acc.
Proof.
  unfold Set_add. destruct (Boolean x) eqn:Hb.
  - assert (x ≠ []) by (by destruct x).
    case_decide as Hx.
    + rewrite decide_True; [done|]. by apply elem_of_filter_Boolean.
    + rewrite decide_False by (rewrite elem_of_filter_Boolean; tauto).
      rewrite List.filter_app. simpl. by rewrite Hb.
  - case_decide; [done|]. rewrite List.filter_app. simpl. rewrite Hb.
    by rewrite app_nil_r.
Qed.

Lemma filter_foldl_Set_add l acc :
  List.filter Boolean (foldl Set_add acc l)
  = foldl Set_add (List.filter Boolean acc) (List.filter Boolean l).
Proof.
  revert acc. induction l as [|x l IH]; intros acc; simpl; [done|].
  rewrite IH, filter_Set_add. by destruct (Boolean x).
Qed.

Lemma filter_new_Set l :
  List.filter Boolean (new_Set l) = new_Set (List.filter Boolean l).
Proof. apply filter_foldl_Set_add. Qed.

(** [replace] removes a final slash and nothing else. *)
Lemma replace_trailing_slash_snoc s c :
  replace_trailing_slash (s ++ [c]) = if c =? slash then s else s ++ [c].
Proof.
  induction s as [|d s IH]; simpl; [by destruct (c =? slash)|].
  rewrite IH. destruct (s ++ [c]) eqn:Hs.
  - by destruct s.
  - by destruct (c =? slash).
Qed.

Lemma ends_with_slash_snoc s c : ends_with_slash (s ++ [c]) = (c =? slash).
Proof.
  unfold ends_with_slash. rewrite last_snoc.
  destruct (N.eqb_spec c slash) as [->|Hc].
  - by rewrite bool_decide_eq_true.
  - rewrite bool_decide_eq_false. congruence.
Qed.

Lemma replace_trailing_slash_cases s :
  (ends_with_slash s = true ∧ s = replace_trailing_slash s ++ [slash])
  ∨ (ends_with_slash s = false ∧ replace_trailing_slash s = s).
Proof.
  destruct s as [|c s _] using rev_ind; [by right|].
  rewrite replace_trailing_slash_snoc, ends_with_slash_snoc.
  destruct (N.eqb_spec c slash) as [->|Hc]; [by left|by right].
Qed.

Lemma replace_trailing_slash_id s :
  ends_with_slash s = false → replace_trailing_slash s = s.
Proof.
  intros Hs. destruct (replace_trailing_slash_cases s) as [[? _]|[_ ?]];
    [congruence|done].
Qed.

(** Two strings that [replace] makes equal differ by at most a final slash. *)
Lemma replace_trailing_slash_eq s1 s2 :
  replace_trailing_slash s1 = replace_trailing_slash s2 →
  s1 = s2 ∨ s1 = s2 ++ [slash] ∨ s2 = s1 ++ [slash].
Proof.
  intros Heq.
  destruct (replace_trailing_slash_cases s1) as [[_ H1]|[_ H1]],
           (replace_trailing_slash_cases s2) as [[_ H2]|[_ H2]].
  - left. rewrite H1, H2. by rewrite Heq.
  - right. left. rewrite H1, Heq. by rewrite H2.
  - right. right. rewrite H2, <- Heq. by rewrite H1.
  - left. congruence.
Qed.

End Builtins.

(** ** The allow-list builder *)

Section Builder.

Implicit Types (b o w : jsstring) (B : list jsstring) (env : option jsstring).

Lemma build_working_set B env :
  build B env = replace_trailing_slash <$> working_set B env.
Proof. reflexivity. Qed.

Lemma elem_of_filter_and_trim B w :
  w ∈ filter_and_trim B ↔ ∃ b, b ∈ B ∧ b ≠ [] ∧ w = trim b.
Proof.
  unfold filter_and_trim. rewrite list_elem_of_fmap.
  setoid_rewrite elem_of_filter_Boolean. naive_solver.
Qed.

Lemma elem_of_working_set B env w :
  w ∈ working_set B env ↔
  w ≠ [] ∧ (w ∈ filter_and_trim B
            ∨ (loose_eq env development = true ∧ w = localhost_5173)).
Proof.
  unfold working_set. rewrite elem_of_filter_Boolean, elem_of_new_Set.
  destruct (loose_eq env development).
  - rewrite elem_of_app, list_elem_of_singleton. naive_solver.
  - naive_solver.
Qed.

Lemma NoDup_working_set B env : NoDup (working_set B env).
Proof. apply NoDup_filter_Boolean, NoDup_new_Set. Qed.

Lemma filter_and_trim_app B1 B2 :
  filter_and_trim (B1 ++ B2) = filter_and_trim B1 ++ filter_and_trim B2.
Proof. unfold filter_and_trim. by rewrite List.filter_app, fmap_app. Qed.

Lemma working_set_alt B env :
  working_set B env
  = new_Set (List.filter Boolean (filter_and_trim B)
             ++ if loose_eq env development then [localhost_5173] else []).
Proof.
  unfold working_set. rewrite filter_new_Set.
  destruct (loose_eq env development).
  - by rewrite List.filter_app.
  - by rewrite app_nil_r.
Qed.

Lemma after_calls_S n env (origins : list jsstring) :
  after_calls (S n) env origins
  = (configureAllowedOrigins env (after_calls n env origins)).2.
Proof. reflexivity. Qed.

Lemma replicate_snoc (n : nat) (x : jsstring) :
  replicate n x ++ [x] = replicate (S n) x.
Proof. induction n as [|n IH]; simpl; [done|by rewrite IH]. Qed.

Lemma after_calls_array n env (origins : list jsstring) :
  after_calls n env origins
  = if loose_eq env development then origins ++ replicate n localhost_5173
    else origins.
Proof.
  induction n as [|n IH].
  - unfold after_calls. simpl.
    destruct (loose_eq env development); [by rewrite app_nil_r|done].
  - rewrite after_calls_S, IH. unfold configureAllowedOrigins. simpl.
    destruct (loose_eq env development); [|done].
    by rewrite <- (assoc_L (++)), replicate_snoc.
Qed.

End Builder.

(** An entry that trims to the empty string, whether the first filter drops
    it or the second one does, leaves no trace in the allow-list. *)
Lemma build_discards_blank (B1 B2 : list jsstring) (b : jsstring) (env : option jsstring) :
  trim b = [] → build (B1 ++ b :: B2) env = build (B1 ++ B2) env.
Proof.
  intros Hb. rewrite !build_working_set, !working_set_alt. do 3 f_equal.
  rewrite (filter_and_trim_app B1 (b :: B2)), (filter_and_trim_app B1 B2).
  rewrite !List.filter_app. f_equal.
  change (b :: B2) with ([b] ++ B2).
  rewrite filter_and_trim_app, List.filter_app.
  unfold filter_and_trim at 1. simpl.
  destruct (Boolean b); simpl; [by rewrite Hb|done].
Qed.

(** C1 (as amended): in production the allow-list is made of the
    deduplicated entries of [B] that are non-empty before and after
    trimming, each with one trailing slash removed; an origin is in it
    exactly when it is the normalized trim of such an entry, so
    [http://localhost:5173] is in it only if an entry of [B] normalizes to
    it; deduplication comes before normalization, so
    [["http://a.com/", "http://a.com"]] gives ["http://a.com"] twice. *)
Theorem build_production_contents (B : list jsstring) :
  (build B (Some production) = replace_trailing_slash <$> working_set B (Some production)
   ∧ NoDup (working_set B (Some production)))
  ∧ (∀ o : jsstring, o ∈ build B (Some production) ↔
       ∃ b : jsstring, b ∈ B ∧ b ≠ [] ∧ trim b ≠ []
                       ∧ o = replace_trailing_slash (trim b))
  ∧ (localhost_5173 ∈ build B (Some production) →
       ∃ b : jsstring, b ∈ B ∧ replace_trailing_slash (trim b) = localhost_5173)
  ∧ build [lit "http://a.com/"; lit "http://a.com"] (Some production)
    = [lit "http://a.com"; lit "http://a.com"].
Proof.
  assert (Hmem : ∀ o : jsstring, o ∈ build B (Some production) ↔
       ∃ b : jsstring, b ∈ B ∧ b ≠ [] ∧ trim b ≠ []
                       ∧ o = replace_trailing_slash (trim b)).
  { intros o. rewrite build_working_set, list_elem_of_fmap.
    setoid_rewrite elem_of_working_set.
    setoid_rewrite elem_of_filter_and_trim.
    change (loose_eq (Some production) development) with false.
    split.
    - intros (w & -> & Hw & [(b & Hb & Hne & ->)|[? _]]); [|done].
      exists b. done.
    - intros (b & Hb & Hne & Ht & ->). exists (trim b).
      split; [done|]. split; [done|]. left. by exists b. }
  split_and!.
  - apply build_working_set.
  - apply NoDup_working_set.
  - exact Hmem.
  - intros (b & Hb & _ & _ & Heq)%Hmem. by exists b.
  - vm_compute. reflexivity.
Qed.

(** C1 (as stated) fails: the slash is removed after deduplication, so the
    two spellings of [http://a.com] both stay. *)
Lemma build_a_com_not_single :
  build [lit "http://a.com/"; lit "http://a.com"] (Some production)
  ≠ [lit "http://a.com"].
Proof. vm_compute. discriminate. Qed.

(** C3: in development the allow-list contains [http://localhost:5173],
    whatever [B] holds. *)
Theorem build_development_has_localhost (B : list jsstring) :
  localhost_5173 ∈ build B (Some development).
Proof.
  rewrite build_working_set.
  apply (list_elem_of_fmap_2' _ _ localhost_5173); [|by vm_compute].
  apply elem_of_working_set. split; [by vm_compute|].
  right. split; [by vm_compute|done].
Qed.

(** C4: empty and white-space-only entries are discarded.  On
    [["", "  ", "http://b.com"]], the pieces of [",  ,http://b.com"], the
    first filter drops [""], trimming turns
    ["  "] into [""], and the filter after deduplication drops that, so the
    result is [["http://b.com"]]; in general an entry that trims to the empty
    string can be removed from [B] without changing the result. *)
Theorem build_discards_empty_entries :
  split comma (lit ",  ,http://b.com") = [lit ""; lit "  "; lit "http://b.com"]
  ∧ List.filter Boolean [lit ""; lit "  "; lit "http://b.com"]
    = [lit "  "; lit "http://b.com"]
  ∧ filter_and_trim [lit ""; lit "  "; lit "http://b.com"]
    = [lit ""; lit "http://b.com"]
  ∧ working_set [lit ""; lit "  "; lit "http://b.com"] (Some production)
    = [lit "http://b.com"]
  ∧ build [lit ""; lit "  "; lit "http://b.com"] (Some production)
    = [lit "http://b.com"]
  ∧ (∀ (B1 B2 : list jsstring) (b : jsstring) (env : option jsstring),
       trim b = [] → build (B1 ++ b :: B2) env = build (B1 ++ B2) env).
Proof.
  split_and!; try (vm_compute; reflexivity).
  apply build_discards_blank.
Qed.

(** C2 (as amended): the allow-list is the list of deduplicated non-empty
    entries, each with exactly one trailing slash removed.  So an element
    ends with a slash only if the entry it comes from ended with two, and two
    positions hold the same element only if the element and the element
    followed by a slash were both entries; when no entry ends with a slash,
    no element does and no two elements are equal.  For every base sequence
    and environment. *)
Theorem allow_list_invariant (B : list jsstring) (env : option jsstring) :
  (build B env = replace_trailing_slash <$> working_set B env
   ∧ NoDup (working_set B env))
  ∧ (∀ o : jsstring, o ∈ build B env → ends_with_slash o = true →
       o ++ [slash] ∈ working_set B env)
  ∧ (∀ (i j : nat) (o : jsstring), i ≠ j →
       build B env !! i = Some o → build B env !! j = Some o →
       o ∈ working_set B env ∧ o ++ [slash] ∈ working_set B env)
  ∧ ((∀ w : jsstring, w ∈ working_set B env → ends_with_slash w = false) →
       Forall (λ o : jsstring, ends_with_slash o = false) (build B env)
       ∧ NoDup (build B env)).
Proof.
  pose proof (NoDup_working_set B env) as Hnd.
  rewrite build_working_set. split_and!; [done|done| | |].
  - intros o (w & -> & Hw)%list_elem_of_fmap Ho.
    destruct (replace_trailing_slash_cases w) as [[_ Hw']|[Hn Hw']].
    + by rewrite <- Hw'.
    + rewrite Hw' in Ho. congruence.
  - intros i j o Hij Hi Hj.
    rewrite list_lookup_fmap in Hi, Hj.
    destruct (working_set B env !! i) as [w1|] eqn:H1; [|done].
    destruct (working_set B env !! j) as [w2|] eqn:H2; [|done].
    simpl in Hi, Hj. injection Hi as Hi. injection Hj as Hj.
    assert (w1 ≠ w2) as Hne.
    { intros ->. apply Hij. by eapply NoDup_lookup. }
    assert (w1 ∈ working_set B env) by (by eapply list_elem_of_lookup_2).
    assert (w2 ∈ working_set B env) by (by eapply list_elem_of_lookup_2).
    destruct (replace_trailing_slash_eq w1 w2) as [?|[Hw|Hw]]; [congruence|done| |].
    + assert (w2 = o) as <-.
      { by rewrite <- Hi, Hw, replace_trailing_slash_snoc. }
      split; [done|by rewrite <- Hw].
    + assert (w1 = o) as <-.
      { by rewrite <- Hj, Hw, replace_trailing_slash_snoc. }
      split; [done|by rewrite <- Hw].
  - intros Hall.
    assert (replace_trailing_slash <$> working_set B env = working_set B env) as ->.
    { rewrite <- (list_fmap_id (working_set B env)) at 2.
      apply list_fmap_ext. intros _ w Hw%list_elem_of_lookup_2.
      by apply replace_trailing_slash_id, Hall. }
    split; [|done]. by apply Forall_forall.
Qed.

(** C2 (as stated) fails: an entry ending with two slashes keeps one, and
    entries that differ by a final slash become equal elements. *)
Lemma allow_list_slash_and_duplicates :
  ¬ (Forall (λ o : jsstring, ends_with_slash o = false)
       (build [lit "http://a.com//"; lit "http://a.com/"; lit "http://a.com"]
          (Some production))
     ∧ NoDup
         (build [lit "http://a.com//"; lit "http://a.com/"; lit "http://a.com"]
            (Some production))).
Proof.
  intros [Hslash _]. apply Forall_cons_1 in Hslash as [Hslash _].
  vm_compute in Hslash. discriminate.
Qed.

Example allow_list_with_duplicates :
  ¬ NoDup (build [lit "http://a.com/"; lit "http://a.com"] (Some production)).
Proof.
  intros Hnd. apply NoDup_cons_1_1 in Hnd. apply Hnd. vm_compute. left.
Qed.

(** C5 (as amended): the result depends only on the environment and the
    configured array, and every further call returns what the first call
    returned; the array itself is left as it was unless the environment is
    ["development"], in which case each call pushes [http://localhost:5173]
    onto it. *)
Theorem configureAllowedOrigins_effect (env : option jsstring) (origins : list jsstring) :
  (loose_eq env development = false →
     (configureAllowedOrigins env origins).2 = origins)
  ∧ (loose_eq env development = true →
     (configureAllowedOrigins env origins).2 = origins ++ [localhost_5173])
  ∧ (∀ n : nat,
       (configureAllowedOrigins env (after_calls n env origins)).1
       = (configureAllowedOrigins env origins).1).
Proof.
  split_and!.
  - intros He. unfold configureAllowedOrigins. by rewrite He.
  - intros He. unfold configureAllowedOrigins. by rewrite He.
  - intros n. rewrite after_calls_array. unfold configureAllowedOrigins.
    destruct (loose_eq env development); [|done]. simpl.
    by rewrite <- (assoc_L (++)), replicate_snoc, new_Set_snoc_replicate.
Qed.

(** C5 (as stated) fails: in development the call changes the array it
    reads. *)
Lemma configureAllowedOrigins_pushes :
  (configureAllowedOrigins (Some development) [lit "http://a.com"]).2
  ≠ [lit "http://a.com"].
Proof. vm_compute. discriminate. Qed.

(** C9: the two copies of [configureAllowedOrigins] are the same function,
    on the result and on the array, and the two copies of the module build
    the same allow-list from the same environment. *)
Theorem configureAllowedOrigins_copies_agree :
  (∀ (env : option jsstring) (origins : list jsstring),
     Server2.configureAllowedOrigins env origins
     = Server.configureAllowedOrigins env origins)
  ∧ (∀ env : process_env,
       allowedOrigins <$> Server2.load env = allowedOrigins <$> Server.load env).
Proof.
  assert (Hsame : ∀ (env : option jsstring) (origins : list jsstring),
     Server2.configureAllowedOrigins env origins
     = Server.configureAllowedOrigins env origins).
  { intros env origins.
    unfold Server2.configureAllowedOrigins, Server.configureAllowedOrigins.
    reflexivity. }
  split; [exact Hsame|].
  intros env. unfold Server2.load, Server.load.
  destruct (ALLOWED_ORIGINS env) as [configured|]; [|done].
  change (Server2.filter_and_trim (split comma configured))
    with (Server.filter_and_trim (split comma configured)).
  rewrite Hsame.
  by destruct (configureAllowedOrigins _ _).
Qed.

(** The copies do differ on the port: the second one falls back to 3000. *)
Example copies_differ_on_port :
  CONFIG_PORT <$> Server.load {| NODE_ENV := None; PORT := NaN; ALLOWED_ORIGINS := Some [] |}
  ≠ CONFIG_PORT <$> Server2.load {| NODE_ENV := None; PORT := NaN; ALLOWED_ORIGINS := Some [] |}.
Proof. vm_compute. discriminate. Qed.

(** ** The cross-origin check and the routes *)

(** C6: the check blocks a request exactly when its origin is present,
    non-empty and not in the allow-list.  A request without origin is
    allowed, so is one whose origin is an entry of the list; any other is
    blocked with a message that ends with the origin, and the server hands
    that error over before any route handler runs. *)
Theorem cors_origin_blocks_iff `{Router} (allowed : list jsstring) (origin : option jsstring) :
  ((∃ message : jsstring, cors_origin allowed origin = Blocked message) ↔
     ∃ o : jsstring, origin = Some o ∧ o ≠ [] ∧ o ∉ allowed)
  ∧ cors_origin allowed None = Allowed
  ∧ (∀ o : jsstring, o ∈ allowed → cors_origin allowed (Some o) = Allowed)
  ∧ (∀ o : jsstring, o ≠ [] → o ∉ allowed →
       cors_origin allowed (Some o) = Blocked (lit "CORS blocked for origin: " ++ o))
  ∧ (∀ (g : globals) (now : process_now) (req : request) (message : jsstring),
       json_body_refused req = false →
       cors_origin (allowedOrigins g) (Express.origin req) = Blocked message →
       serve g now req = ErrorHandler (Error message)).
Proof.
  split_and!.
  - unfold cors_origin, includes. split.
    + intros [message Hb]. destruct origin as [o|]; [|done]. exists o.
      destruct o as [|c o]; [done|]. simpl in Hb.
      case_bool_decide; [done|]. done.
    + intros (o & -> & Hne & Hnot). destruct o as [|c o]; [done|]. simpl.
      rewrite bool_decide_eq_false_2 by done. eauto.
  - done.
  - intros o Ho. unfold cors_origin, includes.
    destruct (Boolean o); simpl; [|done]. by rewrite bool_decide_eq_true_2.
  - intros o Hne Hnot. unfold cors_origin, includes.
    destruct o as [|c o]; [done|]. simpl. by rewrite bool_decide_eq_false_2.
  - intros g now req message Hbody Hblocked.
    unfold serve, app. simpl. unfold express_json, cors.
    by rewrite Hbody, Hblocked.
Qed.

(** C7 (as amended): a request reaches the routes only past the two
    middleware registered before them.  When [express.json()] accepts its
    body and the cross-origin check allows its origin, [GET /] is answered
    200 with ["welcome to the default page"], unless it is a conditional
    request whose validators match, which is answered 304 without body; and
    a request other than [OPTIONS] that the router gives to no route is
    answered 404, with the body [{"error":"Not found"}] unless it is a
    [HEAD] request, which gets no body; so is [GET /nope].  The router's
    test of paths is the library's: what is assumed of it is that [/]
    matches the route [/] and that [/nope] matches no route. *)
Theorem routing_past_middleware `{Router}
    (g : globals) (now : process_now) (req : request) :
  json_body_refused req = false →
  cors_origin (allowedOrigins g) (Express.origin req) = Allowed →
  (method req = GET → path req = lit "/" →
   path_matches (lit "/") (lit "/") = true →
     (cache_validators_match req = false →
        serve g now req
        = Response {| status := 200;
                      sent := Text (lit "welcome to the default page");
                      logged := [] |})
     ∧ (cache_validators_match req = true →
        serve g now req
        = Response {| status := 304; sent := NoBody; logged := [] |}))
  ∧ (method req ≠ OPTIONS →
     route_applies (lit "/") req = false →
     route_applies (lit "/health") req = false →
     serve g now req
     = Response {| status := 404;
                   sent := match method req with
                           | HEAD => NoBody
                           | _ => Json (Some (JObject
                                    [("error"%string, JString (lit "Not found"))]))
                           end;
                   logged := [] |})
  ∧ (method req = GET → path req = lit "/nope" →
     path_matches (lit "/") (lit "/nope") = false →
     path_matches (lit "/health") (lit "/nope") = false →
     serve g now req
     = Response {| status := 404;
                   sent := Json (Some (JObject [("error"%string, JString (lit "Not found"))]));
                   logged := [] |}).
Proof.
  intros Hbody Hcors.
  assert (Hunmatched : method req ≠ OPTIONS →
     route_applies (lit "/") req = false →
     route_applies (lit "/health") req = false →
     serve g now req
     = Response {| status := 404;
                   sent := match method req with
                           | HEAD => NoBody
                           | _ => Json (Some (JObject
                                    [("error"%string, JString (lit "Not found"))]))
                           end;
                   logged := [] |}).
  { intros Hm Hroot Hhealth. unfold serve, app. simpl.
    unfold express_json, cors, app_get, app_use.
    rewrite Hbody, Hcors, Hroot, Hhealth.
    unfold on_the_wire, is_fresh. by destruct (method req). }
  split_and!.
  - intros Hm Hp Hroute.
    assert (serve g now req = Response (on_the_wire req (handleRoot req))) as ->.
    { unfold serve, app. simpl. unfold express_json, cors, app_get, route_applies.
      by rewrite Hbody, Hcors, Hm, Hp, Hroute. }
    unfold on_the_wire, is_fresh. rewrite Hm. by split; intros ->.
  - exact Hunmatched.
  - intros Hm Hp Hroot Hhealth. rewrite Hunmatched.
    + by rewrite Hm.
    + by rewrite Hm.
    + unfold route_applies. by rewrite Hm, Hp.
    + unfold route_applies. by rewrite Hm, Hp.
Qed.

(** [GET /] without [Origin] header meets the conditions of C7, the router
    being that of Express 4. *)
Lemma routing_past_middleware_witness :
  json_body_refused (get (lit "/") None) = false
  ∧ cors_origin (allowedOrigins example_globals) (Express.origin (get (lit "/") None))
    = Allowed
  ∧ serve example_globals example_now (get (lit "/") None)
    = Response {| status := 200;
                  sent := Text (lit "welcome to the default page");
                  logged := [] |}.
Proof.
  split; [reflexivity|]. split; [reflexivity|].
  apply (routing_past_middleware example_globals example_now (get (lit "/") None));
    reflexivity.
Defined.

(** C7 (as stated) fails: [GET /] from an origin outside the allow-list is
    stopped by the cross-origin check and gets no 200. *)
Lemma get_root_blocked_origin :
  ¬ ∃ r : response,
      serve example_globals example_now (get (lit "/") (Some (lit "http://evil.com")))
      = Response r
      ∧ status r = 200.
Proof. intros (r & Hr & _). vm_compute in Hr. discriminate. Qed.

(** What stops a request before the routes: a blocked origin, a body that
    [express.json()] refuses, and cors answering a preflight itself. *)
Example get_root_blocked_origin_outcome :
  serve example_globals example_now (get (lit "/") (Some (lit "http://evil.com")))
  = ErrorHandler (Error (lit "CORS blocked for origin: http://evil.com")).
Proof. vm_compute. reflexivity. Qed.

Example refused_body_outcome :
  serve example_globals example_now
    {| method := POST; path := lit "/nope"; origin := None;
       json_body_refused := true; cache_validators_match := false |}
  = ErrorHandler JsonBodyError.
Proof. reflexivity. Qed.

Example preflight_outcome :
  serve example_globals example_now
    {| method := OPTIONS; path := lit "/nope"; origin := None;
       json_body_refused := false; cache_validators_match := false |}
  = Response {| status := 204; sent := NoBody; logged := [] |}.
Proof. reflexivity. Qed.

(** What [res.send] does to the answers of the routes: no body for [HEAD],
    304 for a conditional request whose validators match. *)
Example head_nope_outcome :
  serve example_globals example_now
    {| method := HEAD; path := lit "/nope"; origin := None;
       json_body_refused := false; cache_validators_match := false |}
  = Response {| status := 404; sent := NoBody; logged := [] |}.
Proof. reflexivity. Qed.

Example conditional_get_root_outcome :
  serve example_globals example_now
    {| method := GET; path := lit "/"; origin := None;
       json_body_refused := false; cache_validators_match := true |}
  = Response {| status := 304; sent := NoBody; logged := [] |}.
Proof. reflexivity. Qed.

(** The router of Express 4 takes [/Health/] for the route [/health]. *)
Example get_health_with_slash :
  route_applies (lit "/health") (get (lit "/Health/") None) = true.
Proof. vm_compute. reflexivity. Qed.

(** ** The health handler *)

Example load_example : load example_env = Some example_globals.
Proof. vm_compute. reflexivity. Qed.

(** The object literal of [handleHealthCheck] has its nine properties,
    whatever they hold. *)
Lemma healthStatus_properties (g : globals) (now : process_now) :
  ∃ api gemini : value,
    healthStatus g now
    = VObject [("status", VString (lit "healthy"));
               ("timestamp", VString (toISOString now));
               ("api", api); ("gemini", gemini);
               ("uptime", VNumber (uptime now))]%string
    ∧ Forall (λ k, has_property k api = true)
        ["running"; "port"; "env"; "allowedOrigins"]%string
    ∧ Forall (λ k, has_property k gemini = true) ["configured"; "model"]%string.
Proof.
  eexists _, _. split; [reflexivity|].
  split; repeat constructor.
Qed.

(** X11: the body sent for [/health]: every field but [api.env] is always
    written; [api.env] is written exactly when [NODE_ENV] is set; and
    [gemini.model] is ["unavailable"] exactly when [gemini.configured] is
    [false]. *)
Lemma health_body (g : globals) (now : process_now) (req : request) :
  ∃ j : json,
    handleHealthCheck g now req
    = {| status := 200; sent := Json (Some j);
         logged := logged (handleHealthCheck g now req) |}
    ∧ Forall (λ ks, is_Some (at_path ks j))
        [["status"]; ["timestamp"]; ["api"; "running"]; ["api"; "port"];
         ["api"; "allowedOrigins"]; ["gemini"; "configured"];
         ["gemini"; "model"]; ["uptime"]]%string
    ∧ at_path ["api"; "env"]%string j = JString <$> CONFIG_NODE_ENV g
    ∧ (at_path ["gemini"; "model"]%string j = Some (JString (lit "unavailable"))
       ↔ at_path ["gemini"; "configured"]%string j = Some (JBoolean false)).
Proof.
  unfold handleHealthCheck, healthStatus.
  destruct g as [env port origins allowed], now as [ts key up]. simpl.
  destruct env as [e|], port as [|neg|q], up as [|neg'|q'], (to_boolean key); simpl;
    (eexists; split; [reflexivity|]);
    (split; [repeat constructor; simpl; eauto|]);
    (split; [reflexivity|]); simpl; split; intros Heq;
    first [reflexivity | vm_compute in Heq; discriminate].
Qed.

(** C8 (at the failing input): with [NODE_ENV] not set, the body sent for
    [GET /health] has no [api.env], while the object the handler built has
    the property, holding [undefined]. *)
Theorem health_response_omits_env :
  ∃ j : json,
    sent (handleHealthCheck example_globals example_now (get (lit "/health") None))
    = Json (Some j)
    ∧ serve example_globals example_now (get (lit "/health") None)
      = Response (handleHealthCheck example_globals example_now (get (lit "/health") None))
    ∧ at_path ["api"; "env"]%string j = None
    ∧ is_Some (at_path ["api"; "port"]%string j)
    ∧ at_path ["gemini"; "model"]%string j = Some (JString (lit "unavailable")).
Proof.
  eexists. split; [reflexivity|].
  split; [reflexivity|]. split; [reflexivity|].
  split; [by eexists|reflexivity].
Qed.

(** ** The task form *)

(** C10: [addTask] changes nothing when the input trims to the empty
    string; otherwise it appends one task, holding the trimmed input, after
    the tasks there were, keeps these and the counter as they are, and empties
    the input. *)
Theorem addTask_effect (now : Z) (st : App.state) :
  (trim (App.text st) = [] → App.addTask now st = st)
  ∧ (trim (App.text st) ≠ [] →
       App.tasks (App.addTask now st)
       = App.tasks st ++ [{| App.id := now; App.task_text := trim (App.text st) |}]
       ∧ (∀ (i : nat) (t : App.task),
            App.tasks st !! i = Some t → App.tasks (App.addTask now st) !! i = Some t)
       ∧ length (App.tasks (App.addTask now st)) = S (length (App.tasks st))
       ∧ App.count (App.addTask now st) = App.count st
       ∧ App.text (App.addTask now st) = []).
Proof.
  unfold App.addTask. split.
  - intros ->. done.
  - intros Hne. destruct (trim (App.text st)) as [|c s] eqn:Ht; [done|]. simpl.
    split_and!; try done.
    + intros i t Hi. by apply lookup_app_l_Some.
    + rewrite length_app. simpl. lia.
Qed.

Example addTask_examples :
  App.addTask 1700000000000 {| App.count := 3; App.text := lit "  buy milk "; App.tasks := [] |}
  = {| App.count := 3; App.text := lit "";
       App.tasks := [{| App.id := 1700000000000; App.task_text := lit "buy milk" |}] |}
  ∧ App.addTask 1700000000000 {| App.count := 3; App.text := lit "   "; App.tasks := [] |}
    = {| App.count := 3; App.text := lit "   "; App.tasks := [] |}.
Proof. split; vm_compute; reflexivity. Qed.

(** * Further properties *)

(** ** [trim] and [split] *)

Section Trim.

Implicit Types (s pre post : jsstring) (c : code_unit).

Lemma trimStart_decompose s :
  ∃ pre, s = pre ++ trimStart s
         ∧ Forall (λ c, is_white_space c = true) pre
         ∧ (∀ c, head (trimStart s) = Some c → is_white_space c = false).
Proof.
  induction s as [|d s (pre & Hs & Hpre & Hhead)]; simpl.
  - exists []. split_and!; [done|constructor|done].
  - destruct (is_white_space d) eqn:Hd.
    + exists (d :: pre). split_and!; [by rewrite Hs at 1|by constructor|done].
    + exists []. split_and!; [done|constructor|]. simpl. congruence.
Qed.

Lemma trimStart_id s :
  (∀ c, head s = Some c → is_white_space c = false) → trimStart s = s.
Proof.
  destruct s as [|d s]; [done|]. simpl. intros Hd. by rewrite (Hd d).
Qed.

Lemma trimEnd_decompose s :
  ∃ post, s = trimEnd s ++ post
          ∧ Forall (λ c, is_white_space c = true) post
          ∧ (∀ c, last (trimEnd s) = Some c → is_white_space c = false).
Proof.
  unfold trimEnd.
  destruct (trimStart_decompose (reverse s)) as (pre & Hs & Hpre & Hhead).
  exists (reverse pre). split_and!.
  - rewrite <- reverse_app, <- Hs. by rewrite reverse_involutive.
  - by apply Forall_reverse.
  - intros c. rewrite last_reverse. apply Hhead.
Qed.

Lemma trimEnd_id s :
  (∀ c, last s = Some c → is_white_space c = false) → trimEnd s = s.
Proof.
  intros Hlast. unfold trimEnd. rewrite trimStart_id.
  - apply reverse_involutive.
  - intros c. rewrite head_reverse. apply Hlast.
Qed.

Lemma trim_decompose s :
  ∃ pre post, s = pre ++ trim s ++ post
    ∧ Forall (λ c, is_white_space c = true) pre
    ∧ Forall (λ c, is_white_space c = true) post
    ∧ (∀ c, head (trim s) = Some c → is_white_space c = false)
    ∧ (∀ c, last (trim s) = Some c → is_white_space c = false).
Proof.
  unfold trim.
  destruct (trimStart_decompose s) as (pre & Hs & Hpre & Hhead).
  destruct (trimEnd_decompose (trimStart s)) as (post & Ht & Hpost & Hlast).
  exists pre, post. split_and!; [by rewrite <- Ht|done|done| |done].
  intros c Hc. apply Hhead. rewrite Ht.
  destruct (trimEnd (trimStart s)); [done|]. done.
Qed.

Lemma trim_idemp s : trim (trim s) = trim s.
Proof.
  destruct (trim_decompose s) as (_ & _ & _ & _ & _ & Hhead & Hlast).
  unfold trim at 1. rewrite (trimStart_id (trim s)) by done.
  by apply trimEnd_id.
Qed.

Lemma elem_of_trim s c : c ∈ trim s → c ∈ s.
Proof.
  destruct (trim_decompose s) as (pre & post & Hs & _).
  intros Hc. rewrite Hs, !elem_of_app. auto.
Qed.

Lemma trim_nil_iff s : trim s = [] ↔ Forall (λ c, is_white_space c = true) s.
Proof.
  destruct (trim_decompose s) as (pre & post & Hs & Hpre & Hpost & Hhead & _).
  split.
  - intros Ht. rewrite Hs, Ht. simpl. by apply Forall_app.
  - intros Hall. destruct (trim s) as [|c t] eqn:Ht; [done|].
    rewrite Hs in Hall. apply Forall_app in Hall as [_ Hall].
    apply Forall_app in Hall as [Hall _]. apply Forall_cons_1 in Hall as [Hc _].
    rewrite (Hhead c) in Hc; done.
Qed.

End Trim.

(** X1: [trim] removes exactly the white space at both ends: the string is
    white space, then the result, then white space, and the result neither
    starts nor ends with white space; it is empty exactly when the string is
    all white space, and trimming again changes nothing. *)
Theorem trim_removes_outer_white_space (s : jsstring) :
  (∃ pre post : jsstring, s = pre ++ trim s ++ post
     ∧ Forall (λ c, is_white_space c = true) pre
     ∧ Forall (λ c, is_white_space c = true) post)
  ∧ (∀ c : code_unit, head (trim s) = Some c → is_white_space c = false)
  ∧ (∀ c : code_unit, last (trim s) = Some c → is_white_space c = false)
  ∧ (trim s = [] ↔ Forall (λ c, is_white_space c = true) s)
  ∧ trim (trim s) = trim s.
Proof.
  destruct (trim_decompose s) as (pre & post & Hs & Hpre & Hpost & Hhead & Hlast).
  split_and!; [by exists pre, post|done|done|apply trim_nil_iff|apply trim_idemp].
Qed.

Section Split.

Implicit Types (s piece : jsstring) (pieces : list jsstring) (sep c : code_unit).

Lemma split_not_nil sep s : split sep s ≠ [].
Proof.
  destruct s as [|c s]; simpl; [done|].
  destruct (c =? sep); [done|]. by destruct (split sep s).
Qed.

Lemma split_no_separator sep s piece : piece ∈ split sep s → sep ∉ piece.
Proof.
  revert piece. induction s as [|c s IH]; simpl; intros piece.
  - intros ->%list_elem_of_singleton. apply not_elem_of_nil.
  - destruct (N.eqb_spec c sep) as [->|Hc].
    + intros [->|Hp]%elem_of_cons; [apply not_elem_of_nil|by apply IH].
    + destruct (split sep s) as [|p ps] eqn:Hsplit.
      * intros ->%list_elem_of_singleton. intros [?|[]%not_elem_of_nil]%elem_of_cons.
        congruence.
      * intros [->|Hp]%elem_of_cons.
        -- intros [?|Hin]%elem_of_cons; [congruence|].
           by apply (IH p); [left|].
        -- apply IH. by right.
Qed.

Lemma join_split sep s : join sep (split sep s) = s.
Proof.
  induction s as [|c s IH]; simpl; [done|].
  destruct (N.eqb_spec c sep) as [->|Hc].
  - pose proof (split_not_nil sep s). simpl.
    destruct (split sep s); [done|]. by rewrite IH.
  - destruct (split sep s) as [|p ps] eqn:Hsplit; [by destruct (split_not_nil sep s)|].
    rewrite <- IH. simpl. by destruct ps.
Qed.

Lemma split_join sep pieces :
  pieces ≠ [] → Forall (λ piece, sep ∉ piece) pieces →
  split sep (join sep pieces) = pieces.
Proof.
  induction pieces as [|p ps IH]; [done|]. intros _ Hall.
  apply Forall_cons_1 in Hall as [Hp Hps].
  destruct ps as [|q ps].
  - simpl. clear IH Hps. induction p as [|c p IHp]; [done|].
    apply not_elem_of_cons in Hp as [Hc Hp]. simpl.
    destruct (N.eqb_spec c sep) as [->|_]; [done|]. by rewrite IHp.
  - specialize (IH ltac:(done) Hps).
    change (join sep (p :: q :: ps)) with (p ++ sep :: join sep (q :: ps)).
    generalize dependent (join sep (q :: ps)). intros rest IH.
    induction p as [|c p IHp]; simpl.
    + rewrite N.eqb_refl. by rewrite IH.
    + apply not_elem_of_cons in Hp as [Hc Hp].
      destruct (N.eqb_spec c sep) as [->|_]; [done|]. by rewrite IHp.
Qed.

End Split.

(** X2: [split] and [join] undo each other.  The pieces of a string, joined
    with the separator, are the string; they are never an empty array and
    none holds the separator; and an array of pieces without separator is
    what [split] makes of their [join], unless the array is empty (its
    [join] is the empty string, which splits into one empty piece). *)
Theorem split_join_round_trip (sep : code_unit) :
  (∀ s : jsstring,
     join sep (split sep s) = s
     ∧ split sep s ≠ []
     ∧ Forall (λ piece : jsstring, sep ∉ piece) (split sep s))
  ∧ (∀ pieces : list jsstring,
       pieces ≠ [] → Forall (λ piece : jsstring, sep ∉ piece) pieces →
       split sep (join sep pieces) = pieces)
  ∧ split sep (join sep []) = [[]].
Proof.
  split_and!.
  - intros s. split_and!; [apply join_split|apply split_not_nil|].
    apply Forall_forall. intros piece. apply split_no_separator.
  - apply split_join.
  - reflexivity.
Qed.

(** ** The allow-list in every environment *)

Section AllowList.

Implicit Types (b o w : jsstring) (B l acc : list jsstring) (env : option jsstring).

Lemma replace_trailing_slash_localhost :
  replace_trailing_slash localhost_5173 = localhost_5173.
Proof. vm_compute. reflexivity. Qed.

Lemma elem_of_build B env o :
  o ∈ build B env ↔
  (∃ b, b ∈ B ∧ b ≠ [] ∧ trim b ≠ [] ∧ o = replace_trailing_slash (trim b))
  ∨ (loose_eq env development = true ∧ o = localhost_5173).
Proof.
  rewrite build_working_set, list_elem_of_fmap.
  setoid_rewrite elem_of_working_set. setoid_rewrite elem_of_filter_and_trim.
  split.
  - intros (w & -> & Hw & [(b & Hb & Hne & ->)|[Hdev ->]]).
    + left. by exists b.
    + right. by rewrite replace_trailing_slash_localhost.
  - intros [(b & Hb & Hne & Ht & ->)|[Hdev ->]].
    + exists (trim b). split_and!; [done|done|]. left. by exists b.
    + exists localhost_5173. rewrite replace_trailing_slash_localhost.
      split_and!; [done|by vm_compute|]. by right.
Qed.

Lemma build_nil env :
  build [] env = if loose_eq env development then [localhost_5173] else [].
Proof.
  unfold build, configureAllowedOrigins. simpl.
  destruct (loose_eq env development); vm_compute; reflexivity.
Qed.

Lemma sublist_filter_Boolean l : List.filter Boolean l `sublist_of` l.
Proof.
  induction l as [|x l IH]; simpl; [constructor|].
  destruct (Boolean x); by constructor.
Qed.

Lemma foldl_Set_add_sublist l acc :
  ∃ k, foldl Set_add acc l = acc ++ k ∧ k `sublist_of` l.
Proof.
  revert acc. induction l as [|x l IH]; intros acc; simpl.
  - exists []. by rewrite app_nil_r.
  - unfold Set_add at 2. case_decide.
    + destruct (IH acc) as (k & -> & Hk). exists k. split; [done|by constructor].
    + destruct (IH (acc ++ [x])) as (k & -> & Hk). exists (x :: k).
      split; [by rewrite <- (assoc_L (++))|by constructor].
Qed.

Lemma new_Set_sublist l : new_Set l `sublist_of` l.
Proof.
  unfold new_Set. by destruct (foldl_Set_add_sublist l []) as (k & -> & Hk).
Qed.

Lemma new_Set_NoDup_id l : NoDup l → new_Set l = l.
Proof.
  unfold new_Set. intros Hl.
  enough (∀ acc, NoDup (acc ++ l) → foldl Set_add acc l = acc ++ l) as Hgen.
  { by apply (Hgen []). }
  clear Hl. induction l as [|x l IH]; intros acc Hnd; simpl.
  - by rewrite app_nil_r.
  - unfold Set_add. rewrite decide_False.
    + rewrite IH; rewrite <- (assoc_L (++)); done.
    + apply NoDup_app in Hnd as (_ & Hnd & _). intros Hx.
      apply (Hnd x Hx). by left.
Qed.

End AllowList.

(** X3: which origins the check lets through.  For every configuration and
    environment, a request whose origin is [o] is allowed exactly when [o]
    is empty, or is the trimmed entry of the configuration, its trailing
    slash removed, or is [http://localhost:5173] in development. *)
Theorem origin_allowed_iff (B : list jsstring) (env : option jsstring) (o : jsstring) :
  cors_origin (build B env) (Some o) = Allowed ↔
  o = []
  ∨ (∃ b : jsstring, b ∈ B ∧ o = replace_trailing_slash (trim b))
  ∨ (loose_eq env development = true ∧ o = localhost_5173).
Proof.
  destruct o as [|c o]; [by split; [left|]|].
  unfold cors_origin, includes. simpl. case_bool_decide as Hin.
  - split; [intros _|done]. right.
    apply elem_of_build in Hin as [(b & Hb & _ & _ & Ho)|?]; [left|by right].
    by exists b.
  - split; [done|]. intros [?|Hrhs]; [done|]. destruct Hin.
    apply elem_of_build. destruct Hrhs as [(b & Hb & Ho)|?]; [left|by right].
    exists b. split_and!; [done| | |done].
    + intros ->. done.
    + intros Ht. by rewrite Ht in Ho.
Qed.

(** X4: a configuration that holds nothing but empty and white-space pieces
    gives the allow-list of an empty configuration: no origin at all, or
    [http://localhost:5173] alone in development. *)
Theorem build_blank_configuration (B : list jsstring) (env : option jsstring) :
  Forall (λ b : jsstring, trim b = []) B →
  build B env = if loose_eq env development then [localhost_5173] else [].
Proof.
  induction 1 as [|b B Hb _ IH]; [apply build_nil|].
  rewrite <- IH. by apply (build_discards_blank [] B b).
Qed.

Lemma build_blank_configuration_witness :
  Forall (λ b : jsstring, trim b = []) [lit ""; lit "  "; lit " "]
  ∧ build [lit ""; lit "  "; lit " "] (Some production) = [].
Proof.
  assert (Hblank : Forall (λ b : jsstring, trim b = []) [lit ""; lit "  "; lit " "]).
  { repeat constructor. }
  split; [exact Hblank|].
  exact (build_blank_configuration [lit ""; lit "  "; lit " "] (Some production) Hblank).
Defined.

(** X5: the allow-list keeps the order of the configuration.  It is a
    subsequence of the entries, each trimmed and with its trailing slash
    removed, followed in development by [http://localhost:5173]. *)
Theorem build_keeps_order (B : list jsstring) (env : option jsstring) :
  build B env `sublist_of`
    ((λ b : jsstring, replace_trailing_slash (trim b)) <$> B)
    ++ (if loose_eq env development then [localhost_5173] else []).
Proof.
  rewrite build_working_set. unfold working_set.
  transitivity (replace_trailing_slash <$>
                  (if loose_eq env development
                   then filter_and_trim B ++ [localhost_5173]
                   else filter_and_trim B)).
  { apply fmap_sublist. etransitivity; [apply sublist_filter_Boolean|].
    apply new_Set_sublist. }
  assert (replace_trailing_slash <$> filter_and_trim B
          `sublist_of` (λ b : jsstring, replace_trailing_slash (trim b)) <$> B) as Hsub.
  { unfold filter_and_trim. rewrite <- list_fmap_compose.
    apply fmap_sublist, sublist_filter_Boolean. }
  destruct (loose_eq env development).
  - rewrite fmap_app. apply sublist_app; [done|].
    change (replace_trailing_slash <$> [localhost_5173])
      with [replace_trailing_slash localhost_5173].
    by rewrite replace_trailing_slash_localhost.
  - by rewrite app_nil_r.
Qed.

(** ** Loading the module *)

Section Load.

Implicit Types (o w b : jsstring) (O l : list jsstring) (env : process_env) (g : globals).

Lemma load_Some env g :
  load env = Some g ↔
  ∃ configured, ALLOWED_ORIGINS env = Some configured
    ∧ g = {| CONFIG_NODE_ENV := NODE_ENV env;
             CONFIG_PORT := PORT env;
             CONFIG_ALLOWED_ORIGINS :=
               (configureAllowedOrigins (NODE_ENV env)
                  (filter_and_trim (split comma configured))).2;
             allowedOrigins := build (split comma configured) (NODE_ENV env) |}.
Proof.
  unfold load. destruct (ALLOWED_ORIGINS env) as [configured|].
  - split.
    + intros [= <-]. by exists configured.
    + intros (? & [= <-] & ->). done.
  - split; [done|]. by intros (? & ? & _).
Qed.

Lemma elem_of_replace_trailing_slash w (c : code_unit) :
  c ∈ replace_trailing_slash w → c ∈ w.
Proof.
  destruct (replace_trailing_slash_cases w) as [[_ Hw]|[_ ->]]; [|done].
  intros Hc. rewrite Hw, elem_of_app. by left.
Qed.

Lemma head_replace_trailing_slash w (c : code_unit) :
  head (replace_trailing_slash w) = Some c → head w = Some c.
Proof.
  destruct (replace_trailing_slash_cases w) as [[_ Hw]|[_ ->]]; [|done].
  intros Hc. rewrite Hw. by destruct (replace_trailing_slash w).
Qed.

Lemma filter_Boolean_id l : Forall (λ o, o ≠ []) l → List.filter Boolean l = l.
Proof.
  induction 1 as [|o l Ho _ IH]; simpl; [done|].
  destruct o; [done|]. simpl. by rewrite IH.
Qed.

Lemma fmap_id_on (f : jsstring → jsstring) l :
  Forall (λ o, f o = o) l → f <$> l = l.
Proof. induction 1 as [|o l Ho _ IH]; csimpl; [done|]. by rewrite Ho, IH. Qed.

End Load.

(** X6: whatever the configured value, no origin of the loaded allow-list
    holds a comma, and none starts with white space. *)
Theorem loaded_origins_shape (env : process_env) (g : globals) :
  load env = Some g →
  Forall (λ o : jsstring,
            (comma ∉ o) ∧ (∀ c : code_unit, head o = Some c → is_white_space c = false))
         (allowedOrigins g).
Proof.
  intros (configured & _ & ->)%load_Some. simpl.
  apply Forall_forall. intros o [(b & Hb & _ & _ & ->)|[_ ->]]%elem_of_build.
  - split.
    + intros Hc%elem_of_replace_trailing_slash%elem_of_trim.
      by apply (split_no_separator comma configured b).
    + intros c Hc%head_replace_trailing_slash.
      destruct (trim_decompose b) as (_ & _ & _ & _ & _ & Hhead & _). by apply Hhead.
  - split.
    + apply (bool_decide_unpack _). vm_compute. exact I.
    + intros c [= <-]. vm_compute. reflexivity.
Qed.

Lemma loaded_origins_shape_witness :
  load example_env = Some example_globals
  ∧ Forall (λ o : jsstring,
              (comma ∉ o) ∧ (∀ c : code_unit, head o = Some c → is_white_space c = false))
           (allowedOrigins example_globals).
Proof.
  split; [reflexivity|].
  apply (loaded_origins_shape example_env example_globals). reflexivity.
Defined.

(** X7: configuring and loading is a round trip on clean origins.  When the
    configured value is the [join] with commas of distinct origins, each
    non-empty, without comma, without white space at either end and without
    trailing slash, the loaded allow-list is these origins in their order;
    in development [http://localhost:5173] comes last unless it is among
    them. *)
Theorem load_clean_origins (O : list jsstring) (node_env : option jsstring) (port : number) :
  Forall (λ o : jsstring,
            o ≠ [] ∧ (comma ∉ o) ∧ trim o = o ∧ ends_with_slash o = false) O →
  NoDup O →
  allowedOrigins <$> load {| NODE_ENV := node_env; PORT := port;
                             ALLOWED_ORIGINS := Some (join comma O) |}
  = Some (if loose_eq node_env development then Set_add O localhost_5173 else O).
Proof.
  intros Hclean Hnd.
  assert (build O node_env
          = if loose_eq node_env development then Set_add O localhost_5173 else O)
    as Hbuild.
  { unfold build, configureAllowedOrigins, filter_and_trim. simpl.
    rewrite (filter_Boolean_id O) by (eapply Forall_impl; [exact Hclean|]; naive_solver).
    rewrite (fmap_id_on trim) by (eapply Forall_impl; [exact Hclean|]; naive_solver).
    assert (∀ l : list jsstring,
              Forall (λ o : jsstring, o ≠ [] ∧ ends_with_slash o = false) l →
              replace_trailing_slash <$> List.filter Boolean l = l) as Hid.
    { intros l Hl. rewrite filter_Boolean_id by (eapply Forall_impl; [exact Hl|]; naive_solver).
      apply fmap_id_on. eapply Forall_impl; [exact Hl|].
      intros o [_ Ho]. by apply replace_trailing_slash_id. }
    assert (Forall (λ o : jsstring, o ≠ [] ∧ ends_with_slash o = false) O) as HO.
    { eapply Forall_impl; [exact Hclean|]. naive_solver. }
    destruct (loose_eq node_env development).
    - unfold new_Set. rewrite foldl_app. fold (new_Set O).
      rewrite new_Set_NoDup_id by done. simpl. apply Hid.
      unfold Set_add. case_decide; [done|].
      apply Forall_app. split; [done|]. repeat constructor; by vm_compute.
    - rewrite new_Set_NoDup_id by done. by apply Hid. }
  destruct (load _) as [g|] eqn:Hload.
  - apply load_Some in Hload as (configured & [= <-] & ->). simpl in *.
    destruct O as [|o O].
    + rewrite <- Hbuild. done.
    + rewrite split_join; [by rewrite Hbuild|done|].
      eapply Forall_impl; [exact Hclean|]. naive_solver.
  - unfold load in Hload. simpl in Hload. done.
Qed.

Lemma load_clean_origins_witness :
  Forall (λ o : jsstring,
            o ≠ [] ∧ (comma ∉ o) ∧ trim o = o ∧ ends_with_slash o = false)
         [lit "http://localhost:5173"; lit "https://todo.example.com"]
  ∧ NoDup [lit "http://localhost:5173"; lit "https://todo.example.com"]
  ∧ allowedOrigins <$> load {| NODE_ENV := Some development; PORT := Finite 5000;
        ALLOWED_ORIGINS :=
          Some (join comma [lit "http://localhost:5173"; lit "https://todo.example.com"]) |}
    = Some [lit "http://localhost:5173"; lit "https://todo.example.com"].
Proof.
  assert (Hclean : Forall (λ o : jsstring,
            o ≠ [] ∧ (comma ∉ o) ∧ trim o = o ∧ ends_with_slash o = false)
         [lit "http://localhost:5173"; lit "https://todo.example.com"]).
  { repeat constructor; try done; apply (bool_decide_unpack _); vm_compute; exact I. }
  assert (Hnd : NoDup [lit "http://localhost:5173"; lit "https://todo.example.com"]).
  { apply (bool_decide_unpack _). vm_compute. exact I. }
  split; [exact Hclean|]. split; [exact Hnd|].
  exact (load_clean_origins _ (Some development) (Finite 5000) Hclean Hnd).
Defined.

Section Start.

Implicit Types (env : process_env) (g : globals).

Lemma legal_port_or_else (port : number) :
  legal_port port = true → legal_port (or_else port (Finite 3000)) = true.
Proof. unfold or_else. by destruct (number_truthy port). Qed.

End Start.

(** X8: the two copies of the module differ by the port alone.  The first
    copy throws while it loads exactly when [ALLOWED_ORIGINS] is not set or
    the port is not an integer from 0 to 65535, which [app.listen] refuses;
    the second exactly when [ALLOWED_ORIGINS] is not set or the port, 3000
    standing in for [NaN] and zero, is not such an integer.  So whenever the
    first copy starts the second starts too, on the same environment, array
    and allow-list, and on the same port unless that is zero; when the port
    is neither [NaN] nor zero the two copies start, or fail, alike; and the
    port of a started second copy is never [NaN] or zero. *)
Theorem copies_differ_by_port_alone (env : process_env) :
  (Server.start env = None ↔
     ALLOWED_ORIGINS env = None ∨ legal_port (PORT env) = false)
  ∧ (Server2.start env = None ↔
       ALLOWED_ORIGINS env = None
       ∨ legal_port (or_else (PORT env) (Finite 3000)) = false)
  ∧ (∀ g1 : globals, Server.start env = Some g1 →
       ∃ g2 : globals,
         Server2.start env = Some g2
         ∧ CONFIG_NODE_ENV g2 = CONFIG_NODE_ENV g1
         ∧ CONFIG_ALLOWED_ORIGINS g2 = CONFIG_ALLOWED_ORIGINS g1
         ∧ allowedOrigins g2 = allowedOrigins g1
         ∧ CONFIG_PORT g2
           = (if number_truthy (CONFIG_PORT g1) then CONFIG_PORT g1 else Finite 3000))
  ∧ (number_truthy (PORT env) = true → Server2.start env = Server.start env)
  ∧ (∀ g2 : globals, Server2.start env = Some g2 →
       number_truthy (CONFIG_PORT g2) = true).
Proof.
  unfold Server.start, Server2.start, Server.load, Server2.load, Server2.CONFIG_PORT.
  change Server2.filter_and_trim with Server.filter_and_trim.
  change Server2.configureAllowedOrigins with Server.configureAllowedOrigins.
  destruct (ALLOWED_ORIGINS env) as [configured|].
  2: { split_and!; try done; naive_solver. }
  destruct (configureAllowedOrigins _ _) as [allowed origins]. simpl.
  split_and!.
  - destruct (legal_port (PORT env)); naive_solver.
  - destruct (legal_port (or_else (PORT env) (Finite 3000))); naive_solver.
  - intros g1. destruct (legal_port (PORT env)) eqn:Hp; [|done].
    intros [= <-]. rewrite (legal_port_or_else _ Hp). eexists. by split_and!.
  - unfold or_else. by intros ->.
  - intros g2. destruct (legal_port (or_else (PORT env) (Finite 3000))); [|done].
    intros [= <-]. simpl. unfold or_else.
    by destruct (number_truthy (PORT env)) eqn:Hp.
Qed.

(** With [PORT] not set, the first copy throws at [listen] and the second
    listens on 3000. *)
Example start_without_port :
  Server.start {| NODE_ENV := None; PORT := NaN;
                  ALLOWED_ORIGINS := Some (lit "http://localhost:3000") |} = None
  ∧ CONFIG_PORT <$> Server2.start {| NODE_ENV := None; PORT := NaN;
                  ALLOWED_ORIGINS := Some (lit "http://localhost:3000") |}
    = Some (Finite 3000).
Proof. split; vm_compute; reflexivity. Qed.

Example start_example : Server.start example_env = Some example_globals.
Proof. vm_compute. reflexivity. Qed.

(** ** The server as a whole *)

(** Under the router of Express 4 no request is for both routes. *)
Lemma route_health_not_root (req : request) :
  route_applies (lit "/health") req = true → route_applies (lit "/") req = false.
Proof.
  unfold route_applies, path_matches, express4, express4_path_matches.
  destruct (method req); try done;
    intros Hp%bool_decide_eq_true; rewrite Hp; by vm_compute.
Qed.

Section Serve.

Context `{Router}.

Implicit Types (g : globals) (now : process_now) (req : request).

Lemma stringify_strings (l : list jsstring) :
  List.map (λ x, default JNull (stringify x)) (VString <$> l) = JString <$> l.
Proof. induction l as [|s l IH]; csimpl; [done|]. by rewrite IH. Qed.

Lemma serve_unfold g now req :
  serve g now req =
  if json_body_refused req then ErrorHandler JsonBodyError
  else match cors_origin (allowedOrigins g) (Express.origin req) with
       | Blocked message => ErrorHandler (Error message)
       | Allowed =>
           match method req with
           | OPTIONS => Response {| status := 204; sent := NoBody; logged := [] |}
           | _ =>
               if route_applies (lit "/") req
               then Response (on_the_wire req (handleRoot req))
               else if route_applies (lit "/health") req
                    then Response (on_the_wire req (handleHealthCheck g now req))
                    else Response (on_the_wire req (notFound req))
           end
       end.
Proof.
  unfold serve, app. simpl. unfold express_json, cors, app_get, app_use.
  destruct (json_body_refused req); [done|].
  destruct (cors_origin _ _); [|done].
  destruct (method req); try done;
    by destruct (route_applies (lit "/") req), (route_applies (lit "/health") req).
Qed.

(** What [res.send] can make of a handler's answer. *)
Lemma on_the_wire_cases req (r : response) :
  (status (on_the_wire req r) = status r ∨ status (on_the_wire req r) = 304)
  ∧ (status (on_the_wire req r) = 304 → status r ≠ 304 →
       cache_validators_match req = true ∧ (method req = GET ∨ method req = HEAD))
  ∧ (method req = HEAD → sent (on_the_wire req r) = NoBody)
  ∧ logged (on_the_wire req r) = logged r.
Proof.
  unfold on_the_wire, is_fresh. simpl.
  destruct (method req) eqn:Hm, (cache_validators_match req);
    rewrite ?andb_false_r, ?andb_true_r;
    repeat case_match; simpl; split_and!; try done; auto; intros; try done;
    split; auto.
Qed.

End Serve.

(** X9: what the server never does.  Every request ends in a response or in
    the error handler, never past the end of the stack.  A response is only
    ever sent to a request whose body [express.json()] accepted and whose
    origin the cross-origin check allowed; its status is 200, 204, 304 or
    404; 204 is the answer to [OPTIONS] requests and to no other; 304 only
    goes to a conditional [GET] or [HEAD] request whose validators match;
    and a [HEAD] request gets no body.  The error handler is reached when
    [express.json()] refuses the body, or else for a non-empty origin outside
    the allow-list, with the message that names it.  Whatever the router's
    test of paths. *)
Theorem serve_outcomes `{Router} (g : globals) (now : process_now) (req : request) :
  serve g now req ≠ FinalHandler
  ∧ (∀ r : response, serve g now req = Response r →
       json_body_refused req = false
       ∧ cors_origin (allowedOrigins g) (Express.origin req) = Allowed
       ∧ (status r = 200 ∨ status r = 204 ∨ status r = 304 ∨ status r = 404)
       ∧ (status r = 204 ↔ method req = OPTIONS)
       ∧ (status r = 304 →
            cache_validators_match req = true
            ∧ (method req = GET ∨ method req = HEAD))
       ∧ (method req = HEAD → sent r = NoBody))
  ∧ (∀ e : error, serve g now req = ErrorHandler e →
       (json_body_refused req = true ∧ e = JsonBodyError)
       ∨ (json_body_refused req = false
          ∧ ∃ o : jsstring,
              Express.origin req = Some o ∧ o ≠ [] ∧ (o ∉ allowedOrigins g)
              ∧ e = Error (lit "CORS blocked for origin: " ++ o))).
Proof.
  rewrite serve_unfold.
  destruct (json_body_refused req) eqn:Hbody.
  { split_and!; [done|done|]. intros e [= <-]. by left. }
  destruct (cors_origin (allowedOrigins g) (Express.origin req)) as [|message] eqn:Hcors.
  - assert (∀ r : response,
              (if route_applies (lit "/") req
               then Response (on_the_wire req (handleRoot req))
               else if route_applies (lit "/health") req
                    then Response (on_the_wire req (handleHealthCheck g now req))
                    else Response (on_the_wire req (notFound req))) = Response r →
              ∃ r0 : response,
                r = on_the_wire req r0 ∧ (status r0 = 200 ∨ status r0 = 404))
      as Hroutes.
    { intros r.
      destruct (route_applies (lit "/") req), (route_applies (lit "/health") req);
        intros [= <-]; eexists; (split; [reflexivity|]); simpl; auto. }
    assert (∀ r : response,
              (if route_applies (lit "/") req
               then Response (on_the_wire req (handleRoot req))
               else if route_applies (lit "/health") req
                    then Response (on_the_wire req (handleHealthCheck g now req))
                    else Response (on_the_wire req (notFound req))) = Response r →
              (status r = 200 ∨ status r = 304 ∨ status r = 404)
              ∧ (status r = 304 →
                   cache_validators_match req = true
                   ∧ (method req = GET ∨ method req = HEAD))
              ∧ (method req = HEAD → sent r = NoBody)) as Hwire.
    { intros r (r0 & -> & Hr0)%Hroutes.
      destruct (on_the_wire_cases req r0) as (Hst & H304 & Hhead & _).
      split_and!; [|intros H3; apply H304; [done|]|done].
      - destruct Hst as [->| ->]; tauto.
      - destruct Hr0 as [Hr0|Hr0]; rewrite Hr0; done. }
    split_and!.
    + destruct (method req); try done;
        by destruct (route_applies (lit "/") req), (route_applies (lit "/health") req).
    + intros r Hr. split; [done|]. split; [done|].
      destruct (method req) eqn:Hm;
        try (apply Hwire in Hr as (Hst & H304 & Hhead);
             split_and!; [tauto| |done|done];
             split; [intros H204; rewrite H204 in Hst; by destruct Hst as [?|[?|?]]|done]).
      injection Hr as <-. simpl. split_and!; [tauto|done|done|done].
    + intros e He.
      destruct (method req); try done;
        by destruct (route_applies (lit "/") req), (route_applies (lit "/health") req).
  - split_and!; [done|done|]. intros e [= <-]. right. split; [done|].
    unfold cors_origin, includes in Hcors.
    destruct (Express.origin req) as [o|]; [|done]. exists o.
    destruct o as [|c o]; [done|]. simpl in Hcors.
    case_bool_decide; [done|]. by injection Hcors as <-.
Qed.

(** X10: the health route.  A request that gets past the middleware and
    that the router gives to the route [/health], not to [/], is answered by
    [handleHealthCheck], which logs one line.  The body the handler gives to
    [res.json] reports the allow-list as loaded, the time and the port, the
    port being [null] when it is not a finite number, and
    [gemini.configured] is [true] exactly when [GOOGLE_API_KEY] is set and
    not empty.  A [GET] request receives that body with status 200, a [HEAD]
    request status 200 and no body, unless the request is a conditional one
    whose validators match: the answer is then 304, without body. *)
Theorem health_route `{Router} (g : globals) (now : process_now) (req : request) :
  json_body_refused req = false →
  cors_origin (allowedOrigins g) (Express.origin req) = Allowed →
  route_applies (lit "/") req = false →
  route_applies (lit "/health") req = true →
  serve g now req = Response (on_the_wire req (handleHealthCheck g now req))
  ∧ length (logged (on_the_wire req (handleHealthCheck g now req))) = 1%nat
  ∧ (cache_validators_match req = false →
       status (on_the_wire req (handleHealthCheck g now req)) = 200
       ∧ (method req = GET →
            sent (on_the_wire req (handleHealthCheck g now req))
            = sent (handleHealthCheck g now req))
       ∧ (method req = HEAD →
            sent (on_the_wire req (handleHealthCheck g now req)) = NoBody))
  ∧ (cache_validators_match req = true →
       status (on_the_wire req (handleHealthCheck g now req)) = 304
       ∧ sent (on_the_wire req (handleHealthCheck g now req)) = NoBody)
  ∧ ∃ j : json,
      sent (handleHealthCheck g now req) = Json (Some j)
      ∧ at_path ["api"; "allowedOrigins"]%string j
        = Some (JArray (JString <$> allowedOrigins g))
      ∧ at_path ["timestamp"]%string j = Some (JString (toISOString now))
      ∧ at_path ["api"; "port"]%string j
        = Some (match CONFIG_PORT g with Finite q => JNumber q | _ => JNull end)
      ∧ (at_path ["gemini"; "configured"]%string j = Some (JBoolean true)
         ↔ ∃ key : jsstring, GOOGLE_API_KEY now = Some key ∧ key ≠ []).
Proof.
  intros Hbody Hcors Hroot Hroute.
  assert (method req = GET ∨ method req = HEAD) as Hm.
  { unfold route_applies in Hroute. destruct (method req); auto; done. }
  split_and!.
  - rewrite serve_unfold, Hbody, Hcors, Hroot, Hroute.
    by destruct Hm as [->| ->].
  - done.
  - intros Hv. unfold on_the_wire, is_fresh. rewrite Hv. simpl.
    destruct Hm as [->| ->]; simpl; split_and!; done.
  - intros Hv. unfold on_the_wire, is_fresh. rewrite Hv. simpl.
    destruct Hm as [->| ->]; simpl; split_and!; done.
  - unfold handleHealthCheck, healthStatus.
    destruct g as [env port origins allowed], now as [ts key up]. simpl.
    assert (to_boolean key = true ↔ ∃ k : jsstring, key = Some k ∧ k ≠ []) as Hkey.
    { destruct key as [[|c k]|]; simpl; naive_solver. }
    destruct env as [e|], port as [|neg|q], up as [|neg'|q'];
      destruct (to_boolean key); simpl;
      (eexists; split; [reflexivity|]); simpl; rewrite stringify_strings;
      (split_and!; [reflexivity|reflexivity|reflexivity|]);
      rewrite <- Hkey; (split; [done|]); intros Heq; first [done | by vm_compute].
Qed.

(** [GET /health/] without [Origin] header meets the conditions of X10 under
    the router of Express 4. *)
Lemma health_route_witness :
  json_body_refused (get (lit "/health/") None) = false
  ∧ cors_origin (allowedOrigins example_globals)
      (Express.origin (get (lit "/health/") None)) = Allowed
  ∧ route_applies (lit "/") (get (lit "/health/") None) = false
  ∧ route_applies (lit "/health") (get (lit "/health/") None) = true
  ∧ serve example_globals example_now (get (lit "/health/") None)
    = Response (on_the_wire (get (lit "/health/") None)
                  (handleHealthCheck example_globals example_now
                     (get (lit "/health/") None))).
Proof.
  split; [reflexivity|]. split; [reflexivity|].
  split; [reflexivity|]. split; [reflexivity|].
  apply (health_route example_globals example_now (get (lit "/health/") None));
    reflexivity.
Defined.

(** ** The component's state over a run of events *)

Section Component.

Import App.

Implicit Types (st : state) (evs : list event) (ev : event) (now : Z).

Lemma run_cons ev evs st : run (ev :: evs) st = run evs (step st ev).
Proof. reflexivity. Qed.

Lemma addTask_cases now st :
  (trim (text st) = [] ∧ addTask now st = st)
  ∨ (trim (text st) ≠ []
     ∧ addTask now st
       = {| count := count st; text := [];
            tasks := tasks st ++ [{| id := now; task_text := trim (text st) |}] |}).
Proof.
  unfold addTask. destruct (trim (text st)) as [|c s]; [by left|by right].
Qed.

Lemma run_tasks evs st :
  ∃ times : list Z,
    id <$> tasks (run evs st) = (id <$> tasks st) ++ times
    ∧ times `sublist_of` submit_times evs
    ∧ tasks st `prefix_of` tasks (run evs st).
Proof.
  revert st. induction evs as [|ev evs IH]; intros st.
  - exists []. by rewrite app_nil_r.
  - rewrite run_cons. destruct (IH (step st ev)) as (times & Hids & Hsub & Hpre).
    destruct ev as [|value|now]; simpl in *; try by exists times.
    unfold onSubmit in *.
    destruct (addTask_cases now st) as [[_ Hst]|[_ Hst]]; rewrite Hst in *.
    + exists times. split_and!; [done|by constructor|done].
    + simpl in *. exists (now :: times). split_and!.
      * by rewrite Hids, fmap_app, <- (assoc_L (++)).
      * by constructor.
      * etransitivity; [|done]. by apply prefix_app_r.
Qed.

Lemma run_tasks_trimmed evs st :
  Forall (λ t : task, task_text t ≠ [] ∧ trim (task_text t) = task_text t) (tasks st) →
  Forall (λ t : task, task_text t ≠ [] ∧ trim (task_text t) = task_text t)
         (tasks (run evs st)).
Proof.
  revert st. induction evs as [|ev evs IH]; intros st Hst; [done|].
  rewrite run_cons. apply IH.
  destruct ev as [|value|now]; simpl; try done.
  unfold onSubmit. destruct (addTask_cases now st) as [[_ ->]|[Hne ->]]; [done|].
  simpl. apply Forall_app. split; [done|].
  repeat constructor; simpl; [done|apply trim_idemp].
Qed.

Lemma run_count evs st :
  (0 ≤ count st ≤ 2 ^ 53)%Z →
  count (run evs st) = Z.min (count st + Z.of_nat (clicks evs)) (2 ^ 53).
Proof.
  revert st. induction evs as [|ev evs IH]; intros st Hst.
  - unfold clicks. simpl. lia.
  - rewrite run_cons. destruct ev as [|value|now].
    + rewrite IH; unfold clicks; simpl; destruct (Z.ltb_spec (count st) (2 ^ 53)); lia.
    + rewrite IH by done. done.
    + assert (count (step st (Submit now)) = count st) as Hc.
      { simpl. unfold onSubmit. by destruct (addTask_cases now st) as [[_ ->]|[_ ->]]. }
      rewrite IH by (by rewrite Hc). by rewrite Hc.
Qed.

End Component.

(** X12: the submit button and [addTask] agree.  The button is disabled
    exactly when [addTask] would change nothing; once [addTask] has run the
    button is disabled, and running [addTask] again, at any time, adds
    nothing more. *)
Theorem submit_disabled_iff_nothing_to_add (now : Z) (st : App.state) :
  (App.submit_disabled st = true ↔ App.addTask now st = st)
  ∧ App.submit_disabled (App.addTask now st) = true
  ∧ (∀ later : Z, App.addTask later (App.addTask now st) = App.addTask now st).
Proof.
  assert (App.submit_disabled (App.addTask now st) = true) as Hdis.
  { unfold App.submit_disabled.
    destruct (addTask_cases now st) as [[Ht ->]|[_ ->]]; [by rewrite Ht|done]. }
  split_and!; [|done|].
  - unfold App.submit_disabled.
    destruct (addTask_cases now st) as [[Ht ->]|[Hne ->]].
    + by rewrite Ht.
    + destruct (trim (App.text st)); [done|]. simpl. split; [done|].
      intros Hst%(f_equal (λ s, length (App.tasks s))). simpl in Hst.
      rewrite length_app in Hst. simpl in Hst. lia.
  - intros later. unfold App.submit_disabled in Hdis.
    destruct (addTask_cases later (App.addTask now st)) as [[_ ->]|[Hne _]]; [done|].
    by destruct (trim (App.text (App.addTask now st))).
Qed.

(** X13: whatever the user does, from the initial state on, every task of
    the list has a text that is not empty and that has no white space at
    either end. *)
Theorem tasks_are_trimmed (evs : list App.event) :
  Forall (λ t : App.task,
            App.task_text t ≠ []
            ∧ trim (App.task_text t) = App.task_text t
            ∧ (∀ c : code_unit, head (App.task_text t) = Some c → is_white_space c = false)
            ∧ (∀ c : code_unit, last (App.task_text t) = Some c → is_white_space c = false))
         (App.tasks (App.run evs App.initial)).
Proof.
  eapply Forall_impl; [apply (run_tasks_trimmed evs App.initial); constructor|].
  intros t [Hne Ht]. split_and!; [done|done| |].
  - rewrite <- Ht. destruct (trim_decompose (App.task_text t)) as (_ & _ & _ & _ & _ & H & _).
    exact H.
  - rewrite <- Ht. destruct (trim_decompose (App.task_text t)) as (_ & _ & _ & _ & _ & _ & H).
    exact H.
Qed.

(** X14: the list only grows, at its end and by submissions.  After any run
    of events the tasks there were are still the first ones, unchanged, and
    the ids of the tasks added are times of submissions of the run, in the
    order of the submissions, each submission giving at most one task. *)
Theorem tasks_grow_by_submissions (evs : list App.event) (st : App.state) :
  App.tasks st `prefix_of` App.tasks (App.run evs st)
  ∧ ∃ times : list Z,
      App.id <$> App.tasks (App.run evs st) = (App.id <$> App.tasks st) ++ times
      ∧ times `sublist_of` App.submit_times evs.
Proof.
  destruct (run_tasks evs st) as (times & Hids & Hsub & Hpre).
  split; [done|]. by exists times.
Qed.

(** X15: the keys of the rendered items are distinct when no two
    submissions of the run carry the same [Date.now()]. *)
Theorem rendered_keys_distinct (evs : list App.event) :
  NoDup (App.submit_times evs) →
  NoDup (fst <$> App.rendered (App.run evs App.initial)).
Proof.
  intros Hnd.
  assert (fst <$> App.rendered (App.run evs App.initial)
          = App.id <$> App.tasks (App.run evs App.initial)) as ->.
  { unfold App.rendered. by rewrite <- list_fmap_compose. }
  destruct (run_tasks evs App.initial) as (times & Hids & Hsub & _).
  rewrite Hids. simpl. by eapply sublist_NoDup.
Qed.

Lemma rendered_keys_distinct_witness :
  NoDup (App.submit_times
           [App.Change (lit "a"); App.Submit 1; App.Click; App.Change (lit "b"); App.Submit 2])
  ∧ NoDup (fst <$> App.rendered
             (App.run [App.Change (lit "a"); App.Submit 1; App.Click;
                       App.Change (lit "b"); App.Submit 2] App.initial)).
Proof.
  assert (Hnd : NoDup (App.submit_times
           [App.Change (lit "a"); App.Submit 1; App.Click; App.Change (lit "b"); App.Submit 2])).
  { apply (bool_decide_unpack _). vm_compute. exact I. }
  split; [exact Hnd|].
  exact (rendered_keys_distinct _ Hnd).
Defined.

(** An item holds the task's text between the two spaces of the JSX. *)
Example rendered_content :
  App.rendered (App.run [App.Change (lit " a "); App.Submit 7] App.initial)
  = [(7%Z, lit "  a  ")].
Proof. vm_compute. reflexivity. Qed.

(** Two submissions in the same millisecond give two items with one key. *)
Example rendered_keys_clash :
  fst <$> App.rendered
    (App.run [App.Change (lit "a"); App.Submit 7; App.Change (lit "b"); App.Submit 7]
       App.initial)
  = [7%Z; 7%Z].
Proof. vm_compute. reflexivity. Qed.

(** X16: the counter counts the clicks.  From the initial state, after any
    run of events, it is the number of clicks of the run, up to [2^53] where
    adding one no longer changes a double; editing the input and submitting
    leave it alone. *)
Theorem counter_counts_clicks (evs : list App.event) :
  App.count (App.run evs App.initial)
  = Z.min (Z.of_nat (App.clicks evs)) (2 ^ 53).
Proof. rewrite run_count; [done|]. simpl. lia. Qed.
